(** * gowiki / matrixRoute: the matrix-multiplication form handler

    A shallow embedding of [src/matrixRoute/matrixMultiply.go] and the
    properties its specification states about it.

    Conventions of the embedding.
    - A Go [string] is a sequence of bytes: Rocq's [string].
    - A Go [int] is a 64-bit integer, held in [Z]; the one place where the
      program multiplies two of them ([createMatAndMultiply]) writes the
      wrap-around out.
    - A [float64] is a member of a [Scalar] structure.  The program is
      translated once, over any such structure; [binary64] (the kernel's
      IEEE 754 floats) is the structure Go computes with, and the laws of
      exact arithmetic are a separate class that [binary64] does not
      satisfy.
    - A run-time panic, and a goroutine that cannot proceed, are outcomes of
      their own ([Panic], [Blocked]).
    - Global or external state is passed explicitly: the pseudorandom source
      as a stream with a cursor, the scheduler as the list of its choices,
      the clock as the elapsed time it will report. *)

From Stdlib Require Import ZArith QArith Floats String Ascii List Lia.
From stdpp Require Import gmap strings list pretty.

Close Scope Q_scope.
Local Open Scope string_scope.
Local Open Scope list_scope.
Local Open Scope Z_scope.

(** ** Outcomes of running Go code *)

Inductive panic : Type :=
| IndexOutOfRange (index length : Z)
| MakeLenOutOfRange (length : Z)
| MakeChanSizeOutOfRange (size : Z).

Inductive outcome (A : Type) : Type :=
| Done (a : A)
| Panic (why : panic)
| Blocked.

Arguments Done {A} a.
Arguments Panic {A} why.
Arguments Blocked {A}.

Definition obind {A B} (m : outcome A) (k : A -> outcome B) : outcome B :=
  match m with
  | Done a => k a
  | Panic why => Panic why
  | Blocked => Blocked
  end.

#[global] Instance outcome_bind : MBind outcome := fun A B k m => obind m k.
#[global] Instance outcome_ret : MRet outcome := @Done.

(** An early [return] out of a loop body, against falling through to the
    next iteration. *)
Inductive flow (S R : Type) : Type :=
| Next (s : S)
| Return (r : R).

Arguments Next {S R} s.
Arguments Return {S R} r.

(** ** Go's library functions used by the validator *)

Module strings.

(** [strings.Replace(s, old, new, -1)] for one-byte [old] and [new]: every
    occurrence is replaced. *)
Fixpoint Replace (s : string) (old new : ascii) : string :=
  match s with
  | EmptyString => EmptyString
  | String c s' =>
      String (if Ascii.eqb c old then new else c) (Replace s' old new)
  end.

(** [asciiSpace]: tab, line feed, vertical tab, form feed, carriage
    return, space. *)
Definition asciiSpace (b : N) : bool :=
  ((9 <=? b) && (b <=? 13) || (b =? 32))%N.

(** The number of bytes of the white-space rune ([unicode.IsSpace]) that
    starts with byte [b0], followed by [b1] and [b2]; 0 when no such rune
    starts there.  Beyond ASCII these are U+0085, U+00A0, U+1680,
    U+2000..U+200A, U+2028, U+2029, U+202F, U+205F and U+3000, in UTF-8. *)
Definition spaceRuneLen (b0 : N) (b1 b2 : option N) : nat :=
  if asciiSpace b0 then 1%nat
  else match b0, b1, b2 with
       | 0xC2%N, Some 0x85%N, _ => 2%nat
       | 0xC2%N, Some 0xA0%N, _ => 2%nat
       | 0xE1%N, Some 0x9A%N, Some 0x80%N => 3%nat
       | 0xE2%N, Some 0x80%N, Some b =>
           if ((0x80 <=? b) && (b <=? 0x8A) || (b =? 0xA8) || (b =? 0xA9)
               || (b =? 0xAF))%N
           then 3%nat else 0%nat
       | 0xE2%N, Some 0x81%N, Some 0x9F%N => 3%nat
       | 0xE3%N, Some 0x80%N, Some 0x80%N => 3%nat
       | _, _, _ => 0%nat
       end.

Definition byteAt (s : string) (i : nat) : option N :=
  option_map N_of_ascii (String.get i s).

Definition flush (cur : string) (out : list string) : list string :=
  match cur with
  | EmptyString => out
  | _ => cur :: out
  end.

(** The scan of [strings.Fields]: [skip] counts the bytes still to be
    dropped of a multi-byte white-space rune, [cur] is the field being
    read. *)
Fixpoint fieldsFrom (skip : nat) (cur : string) (s : string) : list string :=
  match s with
  | EmptyString => flush cur []
  | String c s' =>
      match skip with
      | S k => fieldsFrom k cur s'
      | O =>
          match spaceRuneLen (N_of_ascii c) (byteAt s' 0) (byteAt s' 1) with
          | O => fieldsFrom 0 (cur +:+ String c EmptyString) s'
          | S k => flush cur (fieldsFrom k EmptyString s')
          end
      end
  end.

(** [strings.Fields]: the maximal runs of non-white-space of [s]. *)
Definition Fields (s : string) : list string := fieldsFrom 0 EmptyString s.

End strings.

Module strconv.

Definition maxInt : Z := 2 ^ 63 - 1.
Definition minInt : Z := - 2 ^ 63.

Definition digit (c : ascii) : option Z :=
  let b := Z.of_N (N_of_ascii c) in
  if (48 <=? b) && (b <=? 57) then Some (b - 48) else None.

Fixpoint digits (acc : Z) (s : string) : option Z :=
  match s with
  | EmptyString => Some acc
  | String c s' =>
      match digit c with
      | Some d => digits (acc * 10 + d) s'
      | None => None
      end
  end.

(** [strconv.Atoi] on a 64-bit platform: an optional sign, then one or
    more decimal digits, denoting a value of the [int] range.  [None]
    stands for a non-nil error (syntax or range). *)
Definition Atoi (s : string) : option Z :=
  let '(neg, body) :=
    match s with
    | String "-"%char r => (true, r)
    | String "+"%char r => (false, r)
    | _ => (false, s)
    end in
  match body with
  | EmptyString => None
  | _ =>
      match digits 0 body with
      | Some n =>
          let v := if neg then - n else n in
          if (minInt <=? v) && (v <=? maxInt) then Some v else None
      | None => None
      end
  end.

End strconv.

(** [fmt]'s verb [%d] on an [int]. *)
Definition fmt_d (n : Z) : string := pretty n.

(** ** The validator *)

(** [[2]int] and [[2][2]int]: fixed-size arrays, indexed from 0; an index
    outside the array panics. *)
Definition int2 : Type := Z * Z.
Definition int2x2 : Type := int2 * int2.

Definition at2 {A} (a : A * A) (idx : nat) : outcome A :=
  match idx with
  | 0%nat => Done (fst a)
  | 1%nat => Done (snd a)
  | _ => Panic (IndexOutOfRange (Z.of_nat idx) 2)
  end.

Definition set2 {A} (a : A * A) (idx : nat) (v : A) : outcome (A * A) :=
  match idx with
  | 0%nat => Done (v, snd a)
  | 1%nat => Done (fst a, v)
  | _ => Panic (IndexOutOfRange (Z.of_nat idx) 2)
  end.

(** [matSizes[matID][idx] = intValue] *)
Definition setSize (matSizes : int2x2) (matID idx : nat) (intValue : Z)
  : outcome int2x2 :=
  row ← at2 matSizes matID;
  row' ← set2 row idx intValue;
  set2 matSizes matID row'.

(** The request as the handler sees it after [request.ParseForm()]: the
    error of the parse, and the form values by field name. *)
Record Request : Type := {
  ParseFormErr : option string;
  Form : gmap string (list string)
}.

(** The map index expression [v, found := m[key]]: a missing key yields the
    zero value, here the nil slice. *)
Definition mapIndex {V} (m : gmap string (list V)) (key : string)
  : list V * bool :=
  match m !! key with
  | Some v => (v, true)
  | None => ([], false)
  end.

(** What [processRequest] returns: the sizes, the error message, and [ok]. *)
Definition validation : Type := int2x2 * string * bool.

(** [strings.Fields(strings.Replace(userInputString, ",", " ", -1))] *)
Definition sizeTokens (userInputString : string) : list string :=
  strings.Fields (strings.Replace userInputString "," " ").

(** The loop over the tokens of one field, from token [idx] on. *)
Fixpoint storeSizes (matSizes : int2x2) (matID idx : nat)
    (sizeValues : list string) : outcome (flow int2x2 validation) :=
  match sizeValues with
  | [] => Done (Next matSizes)
  | stringValue :: rest =>
      match strconv.Atoi stringValue with
      | None =>
          Done (Return (matSizes, stringValue +:+ " is an invalid input", false))
      | Some intValue =>
          matSizes' ← setSize matSizes matID idx intValue;
          storeSizes matSizes' matID (S idx) rest
      end
  end.

(** One iteration of the loop over the two field names. *)
Definition processField (request : Request) (matSizes : int2x2)
    (matID : nat) (matName : string) : outcome (flow int2x2 validation) :=
  let '(slice, found) := mapIndex (Form request) matName in
  match slice with
  | [] => Panic (IndexOutOfRange 0 0)
  | userInputString :: _ =>
      if found && (0 <? String.length userInputString)%nat then
        let sizeValues := sizeTokens userInputString in
        if (length sizeValues <? 2)%nat then
          Done (Return (matSizes, "2 numbers needed, only 1 received", false))
        else storeSizes matSizes matID 0 sizeValues
      else Done (Return (matSizes, "2 numbers needed, 0 received", false))
  end.

Fixpoint processFields (request : Request) (matSizes : int2x2)
    (matID : nat) (matNames : list string) : outcome validation :=
  match matNames with
  | [] => Done (matSizes, "", true)
  | matName :: rest =>
      step ← processField request matSizes matID matName;
      match step with
      | Return r => Done r
      | Next matSizes' => processFields request matSizes' (S matID) rest
      end
  end.

Definition processRequest (request : Request) : outcome validation :=
  processFields request ((0, 0), (0, 0)) 0 ["matASize"; "matBSize"].

Definition canMultiply (matAsize matBsize : int2) : bool * string :=
  if snd matAsize =? fst matBsize then (true, "")
  else (false,
        "matrix with size " +:+ fmt_d (fst matAsize) +:+ " * "
        +:+ fmt_d (snd matAsize) +:+ " cannot be multiplied with matrix of size "
        +:+ fmt_d (fst matBsize) +:+ " * " +:+ fmt_d (snd matBsize)).

(** ** Scalars *)

(** The operations of [float64] the program uses, and the order its
    specification speaks of. *)
Class Scalar (F : Type) : Type := {
  fzero : F;
  fone : F;
  fadd : F -> F -> F;
  fmul : F -> F -> F;
  f1e3 : F;
  fle : F -> F -> Prop;
  flt : F -> F -> Prop
}.

(** IEEE 754 binary64, the arithmetic of Go's [float64] (each operation
    rounded on its own). *)
#[global] Instance binary64 : Scalar float := {
  fzero := 0%float;
  fone := 1%float;
  fadd := PrimFloat.add;
  fmul := PrimFloat.mul;
  f1e3 := 1000%float;
  fle x y := PrimFloat.leb x y = true;
  flt x y := PrimFloat.ltb x y = true
}.

(** Exact arithmetic over the integers and over the rationals. *)
#[global] Instance exactZ : Scalar Z := {
  fzero := 0; fone := 1; fadd := Z.add; fmul := Z.mul; f1e3 := 1000;
  fle := Z.le; flt := Z.lt
}.

#[global] Instance exactQ : Scalar Q := {
  fzero := 0%Q; fone := 1%Q; fadd := Qplus; fmul := Qmult;
  f1e3 := inject_Z 1000; fle := Qle; flt := Qlt
}.

(** The scalar [n], as [1 + ... + 1]. *)
Fixpoint fnat {F} `{Scalar F} (n : nat) : F :=
  match n with
  | O => fzero
  | S n' => fadd (fnat n') fone
  end.

(** The laws of exact arithmetic (a semiring).  [binary64] has none of the
    associativity and distributivity laws. *)
Class ExactArith (F : Type) `{Scalar F} : Prop := {
  fadd_assoc : forall x y z : F, fadd x (fadd y z) = fadd (fadd x y) z;
  fadd_comm : forall x y : F, fadd x y = fadd y x;
  fadd_0_l : forall x : F, fadd fzero x = x;
  fmul_0_l : forall x : F, fmul fzero x = fzero;
  fmul_0_r : forall x : F, fmul x fzero = fzero;
  fmul_1_l : forall x : F, fmul fone x = x;
  fmul_add_distr_l : forall x y z : F,
    fmul x (fadd y z) = fadd (fmul x y) (fmul x z);
  fmul_add_distr_r : forall x y z : F,
    fmul (fadd x y) z = fadd (fmul x z) (fmul y z)
}.

(** ** Matrices, the random source, the channel *)

(** [[][]float64] *)
Abbreviation matrix F := (list (list F)).

Section Program.

Context {F : Type} `{Scalar F}.

(** A slice index expression [l[i]]. *)
Definition index {A} (l : list A) (i : nat) : outcome A :=
  match l !! i with
  | Some x => Done x
  | None => Panic (IndexOutOfRange (Z.of_nat i) (Z.of_nat (length l)))
  end.

(** [make([]T, len)] *)
Definition make {A} (zero : A) (len : Z) : outcome (list A) :=
  if len <? 0 then Panic (MakeLenOutOfRange len)
  else Done (replicate (Z.to_nat len) zero).

(** The process-wide pseudorandom source of [math/rand]: the values it
    will return, and how many it has returned. *)
Record Rand : Type := { stream : nat -> F; cursor : nat }.

(** [rand.Float64()] *)
Definition Float64 (r : Rand) : F * Rand :=
  (stream r (cursor r), {| stream := stream r; cursor := S (cursor r) |}).

(** [chan float64]: the buffered values, oldest first, and the capacity.
    A send needs room in the buffer and a receive needs a value in it;
    the rendezvous of a channel of capacity 0 is not modelled (every send
    on it is [Blocked]). *)
Record chan : Type := { buf : list F; cap : nat }.

(** [make(chan float64, size)] *)
Definition makeChan (size : Z) : outcome chan :=
  if size <? 0 then Panic (MakeChanSizeOutOfRange size)
  else Done {| buf := []; cap := Z.to_nat size |}.

(** [ch <- v] *)
Definition send (ch : chan) (v : F) : outcome chan :=
  if (length (buf ch) <? cap ch)%nat
  then Done {| buf := buf ch ++ [v]; cap := cap ch |}
  else Blocked.

(** [<-ch] *)
Definition recv (ch : chan) : outcome (F * chan) :=
  match buf ch with
  | [] => Blocked
  | v :: rest => Done (v, {| buf := rest; cap := cap ch |})
  end.

(** ** [createMat] *)

(** [for colIdx := range row { row[colIdx] = rand.Float64() * 1e3 }] *)
Fixpoint fillRow (row : list F) (colIdxs : list nat) (r : Rand)
  : list F * Rand :=
  match colIdxs with
  | [] => (row, r)
  | colIdx :: rest =>
      let '(x, r') := Float64 r in
      fillRow (<[colIdx := fmul x f1e3]> row) rest r'
  end.

(** [for rowIdx := range mat { mat[rowIdx] = make([]float64, noOfCols); ... }] *)
Fixpoint fillRows (mat : matrix F) (noOfCols : Z) (rowIdxs : list nat)
    (r : Rand) : outcome (matrix F * Rand) :=
  match rowIdxs with
  | [] => Done (mat, r)
  | rowIdx :: rest =>
      row ← make fzero noOfCols;
      let '(row', r') := fillRow row (seq 0 (length row)) r in
      fillRows (<[rowIdx := row']> mat) noOfCols rest r'
  end.

Definition createMat (matrixSize : int2) (r : Rand)
  : outcome (matrix F * Rand) :=
  let '(noOfRows, noOfCols) := matrixSize in
  mat ← make [] noOfRows;
  fillRows mat noOfCols (seq 0 (length mat)) r.

(** ** [dotProduct] *)

(** [for mat1ColIdx := range mat1[mat1RowIdx] { result += ... }] *)
Fixpoint dotRow (mat1 mat2 : matrix F) (mat1RowIdx mat2ColIdx : nat)
    (colIdxs : list nat) (result : F) : outcome F :=
  match colIdxs with
  | [] => Done result
  | mat1ColIdx :: rest =>
      row1 ← index mat1 mat1RowIdx;
      a ← index row1 mat1ColIdx;
      row2 ← index mat2 mat1ColIdx;
      b ← index row2 mat2ColIdx;
      dotRow mat1 mat2 mat1RowIdx mat2ColIdx rest (fadd result (fmul a b))
  end.

(** [for k := 0; k < 100; k++ { ... }], with [passes] iterations left. *)
Fixpoint dotPasses (mat1 mat2 : matrix F) (mat1RowIdx mat2ColIdx : nat)
    (passes : nat) (result : F) : outcome F :=
  match passes with
  | O => Done result
  | S passes' =>
      row1 ← index mat1 mat1RowIdx;
      result' ← dotRow mat1 mat2 mat1RowIdx mat2ColIdx
                  (seq 0 (length row1)) result;
      dotPasses mat1 mat2 mat1RowIdx mat2ColIdx passes' result'
  end.

(** The cell task: the scalar it computes is sent on [sumCh]. *)
Definition dotProduct (mat1 mat2 : matrix F) (mat1RowIdx mat2ColIdx : nat)
    (sumCh : chan) : outcome chan :=
  result ← dotPasses mat1 mat2 mat1RowIdx mat2ColIdx 100 fzero;
  send sumCh result.

(** ** [matrixMultiply]: the main goroutine and the cell tasks *)

(** What an observer counting tasks and channel operations sees, and what
    the handler writes. *)
Inductive chunk : Type :=
| pageTop
| form
| pageBottom
| anError (message : string)
| formatResult (result timeTaken : F).

Inductive event : Type :=
| EvSpawn (mat1RowIdx mat2ColIdx : nat)
| EvSend (mat1RowIdx mat2ColIdx : nat)
| EvRecv (v : F)
| EvCreateMat (matrixSize : int2)
| EvMakeChan (size : Z)
| EvPrintln (line : string)
| EvWrite (c : chunk).

(** Where the main goroutine stands: in the spawning loops before
    iteration [(i, j)], in the draining loops before iteration [(i, j)],
    or at [return sum]. *)
Inductive mainpc : Type :=
| Spawning (i j : nat)
| Draining (i j : nat)
| Returned.

(** The cell tasks spawned and not yet through their send ([pool]), the
    channel, the accumulator [sum], the events so far. *)
Record config : Type := {
  pc : mainpc;
  pool : list (nat * nat);
  sumCh : chan;
  sum : F;
  log : list event
}.

(** The scheduler picks the main goroutine or the [k]-th waiting task. *)
Inductive actor : Type :=
| Main
| Task (k : nat).

Section Multiplier.

Variables mat1 mat2 : matrix F.
Variables rowsOfMat1 colsOfMat2 : nat.

Definition stepMain (c : config) : outcome config :=
  match pc c with
  | Spawning i j =>
      if (i <? rowsOfMat1)%nat then
        if (j <? colsOfMat2)%nat then
          Done {| pc := Spawning i (S j);
                  pool := pool c ++ [(i, j)];
                  sumCh := sumCh c;
                  sum := sum c;
                  log := log c ++ [EvSpawn i j] |}
        else
          Done {| pc := Spawning (S i) 0; pool := pool c;
                  sumCh := sumCh c; sum := sum c; log := log c |}
      else
        Done {| pc := Draining 0 0; pool := pool c;
                sumCh := sumCh c; sum := fzero; log := log c |}
  | Draining i j =>
      if (i <? rowsOfMat1)%nat then
        if (j <? colsOfMat2)%nat then
          '(v, ch) ← recv (sumCh c);
          Done {| pc := Draining i (S j);
                  pool := pool c;
                  sumCh := ch;
                  sum := fadd (sum c) v;
                  log := log c ++ [EvRecv v] |}
        else
          Done {| pc := Draining (S i) 0; pool := pool c;
                  sumCh := sumCh c; sum := sum c; log := log c |}
      else
        Done {| pc := Returned; pool := pool c;
                sumCh := sumCh c; sum := sum c; log := log c |}
  | Returned => Blocked
  end.

Definition stepTask (k : nat) (c : config) : outcome config :=
  match pool c !! k with
  | None => Blocked
  | Some (i, j) =>
      ch ← dotProduct mat1 mat2 i j (sumCh c);
      Done {| pc := pc c;
              pool := delete k (pool c);
              sumCh := ch;
              sum := sum c;
              log := log c ++ [EvSend i j] |}
  end.

Definition step (a : actor) (c : config) : outcome config :=
  match a with
  | Main => stepMain c
  | Task k => stepTask k c
  end.

Fixpoint run (sched : list actor) (c : config) : outcome config :=
  match sched with
  | [] => Done c
  | a :: rest => c' ← step a c; run rest c'
  end.

End Multiplier.

Definition start (ch : chan) : config :=
  {| pc := Spawning 0 0; pool := []; sumCh := ch; sum := fzero; log := [] |}.

(** [matrixMultiply] under the schedule [sched]: the value returned and
    the events of the run.  A schedule that does not bring the main
    goroutine to its [return] yields no result. *)
Definition matrixMultiply (mat1 mat2 : matrix F) (ch : chan)
    (sched : list actor) : outcome (F * list event) :=
  let rowsOfMat1 := length mat1 in
  row0 ← index mat2 0;
  let colsOfMat2 := length row0 in
  c ← run mat1 mat2 rowsOfMat1 colsOfMat2 sched (start ch);
  match pc c with
  | Returned => Done (sum c, log c)
  | _ => Blocked
  end.

(** ** [createMatAndMultiply], [timeit], [MatrixHandler] *)

(** Go's [int] product: the low 64 bits, read as a signed number. *)
Definition wrap64 (n : Z) : Z := (n + 2 ^ 63) mod 2 ^ 64 - 2 ^ 63.

(** What is outside the request: the random source, the scheduler's
    choices, the duration the clock will measure. *)
Record World : Type := {
  rand : Rand;
  schedule : list actor;
  elapsed : F
}.

Definition createMatAndMultiply (matAsize matBsize : int2) (w : World)
  : outcome (F * list event) :=
  '(mat1, r1) ← createMat matAsize (rand w);
  '(mat2, r2) ← createMat matBsize r1;
  let size := wrap64 (fst matAsize * snd matBsize) in
  ch ← makeChan size;
  '(sum, evs) ← matrixMultiply mat1 mat2 ch (schedule w);
  Done (sum, [EvCreateMat matAsize; EvCreateMat matBsize; EvMakeChan size]
             ++ evs).

Definition timeit
    (function : int2 -> int2 -> World -> outcome (F * list event))
    (arg1 arg2 : int2) (w : World) : outcome (F * F * list event) :=
  '(result, evs) ← function arg1 arg2 w;
  Done (result, elapsed w, evs).

Definition MatrixHandler (request : Request) (w : World)
  : outcome (list event) :=
  body ←
    match ParseFormErr request with
    | Some err => Done [EvWrite (anError err)]
    | None =>
        if (size (Form request) =? 0)%nat then
          Done [EvPrintln "page requested for first time"]
        else
          '(matrixSizes, errorMessage, ok) ← processRequest request;
          if ok : bool then
            let '(isTrue, errorMessage) :=
              canMultiply (fst matrixSizes) (snd matrixSizes) in
            if isTrue : bool then
              '(result, timeTaken, evs) ←
                timeit createMatAndMultiply
                  (fst matrixSizes) (snd matrixSizes) w;
              Done (evs ++ [EvWrite (formatResult result timeTaken)])
            else Done [EvWrite (anError errorMessage)]
          else Done [EvWrite (anError errorMessage)]
    end;
  Done ([EvWrite pageTop; EvWrite form] ++ body ++ [EvWrite pageBottom]).

End Program.

Arguments Rand : clear implicits.
Arguments chan : clear implicits.
Arguments chunk : clear implicits.
Arguments event : clear implicits.
Arguments config : clear implicits.
Arguments World : clear implicits.


(** * The wiki ([package main])

    The file-backed wiki: the path check of [makeHandler], the page
    handlers, and the bookkeeping of the known titles.  The file system is
    the map from the paths of the readable files to their contents; whether
    a write fails, and what it leaves behind when it does, is for the world
    to say.  The regular expression [validPath] is fixed and its matcher is
    written out; the expression of the known titles is held by its source
    text, [regexp.MustCompile] accepting or refusing it as the parameter
    [compiles] says.  Rendering a template is recorded as the call made. *)

Module wiki.

Definition packageDir : string := "~/go/src/github.com/shksa/learninggowiki".

(** [Page]; the body, a [[]byte], is held as a string. *)
Record Page : Type := { Title : string; Body : string }.

(** What the process keeps between requests: the files on disk and the
    three package variables. *)
Record State : Type := {
  files : gmap string string;
  availableTitlesPattern : string;
  availableTitlesRegExp : string;
  availableWikiTitles : gmap string bool
}.

(** What a handler does to the response: the calls to [http.NotFound],
    [http.Redirect], [http.Error] and the rendering functions, or a panic
    of [regexp.MustCompile] inside the handler. *)
Inductive response : Type :=
| NotFound
| Redirect (url : string) (code : nat)
| Error (message : string) (code : nat)
| RenderPage (templateFilename : string) (data : Page)
| RenderView (templateFilename : string) (title body : string)
    (titlesRegExp : string)
| RenderTitles (templateFilename : string) (titles : gmap string bool)
| MustCompilePanic (expr : string).

Definition StatusFound : nat := 302.
Definition StatusInternalServerError : nat := 500.

(** How [init] can end: normally, by a run-time panic (a slice bound out of
    range, or [regexp.MustCompile]), or by [log.Fatal]. *)
Inductive startup : Type :=
| Started (st : State)
| SliceBoundsOutOfRange (bound : Z)
| InitMustCompilePanic (expr : string)
| Fatal.

(** [filepath.Join(dir, sub, file)] for elements that are clean already, as
    [packageDir], ["data"] and a file name with no separator are: Join
    then only puts the separators in. *)
Definition Join (dir sub file : string) : string :=
  dir +:+ "/" +:+ sub +:+ "/" +:+ file.

(** [ioutil.ReadFile]: the contents, or [None] for an error. *)
Definition ReadFile (fs : gmap string string) (path : string)
  : option string := fs !! path.

(** [ioutil.WriteFile]: [failure] is the error the world answers with, if
    any, and the files as the failed write leaves them; without one the
    file holds [data] afterwards. *)
Definition WriteFile (fs : gmap string string) (path data : string)
    (failure : option (string * gmap string string))
  : gmap string string * option string :=
  match failure with
  | Some (err, fsAfter) => (fsAfter, Some err)
  | None => (<[path := data]> fs, None)
  end.

Definition save (p : Page) (fs : gmap string string)
    (failure : option (string * gmap string string))
  : gmap string string * option string :=
  let filename := Title p +:+ ".txt" in
  WriteFile fs (Join packageDir "data" filename) (Body p) failure.

Definition load (title : string) (fs : gmap string string) : option Page :=
  let filename := title +:+ ".txt" in
  match ReadFile fs (Join packageDir "data" filename) with
  | None => None
  | Some body => Some {| Title := title; Body := body |}
  end.

(** The character class [[a-zA-Z0-9]]. *)
Definition alnum (c : ascii) : bool :=
  let b := N_of_ascii c in
  ((48 <=? b) && (b <=? 57) || (65 <=? b) && (b <=? 90)
   || (97 <=? b) && (b <=? 122))%N.

Fixpoint allAlnum (s : string) : bool :=
  match s with
  | EmptyString => true
  | String c s' => alnum c && allAlnum s'
  end.

Fixpoint stripPrefix (pre s : string) : option string :=
  match pre, s with
  | EmptyString, _ => Some s
  | String a pre', String b s' =>
      if Ascii.eqb a b then stripPrefix pre' s' else None
  | String _ _, EmptyString => None
  end.

(** One alternative of the first group, followed by the second group up to
    the end of the text. *)
Definition matchVerb (path verb : string) : option (list string) :=
  match stripPrefix ("/" +:+ verb +:+ "/") path with
  | Some title =>
      if (0 <? String.length title)%nat && allAlnum title
      then Some [path; verb; title]
      else None
  | None => None
  end.

(** [validPath.FindStringSubmatch], for
    [validPath = ^/(edit|save|view)/([a-zA-Z0-9]+)$]: the whole match and
    the two groups, or [None] for [nil]. *)
Definition FindStringSubmatch (path : string) : option (list string) :=
  match matchVerb path "edit" with
  | Some m => Some m
  | None =>
      match matchVerb path "save" with
      | Some m => Some m
      | None => matchVerb path "view"
      end
  end.

(** The closure [makeHandler] returns, applied to the path of the request:
    [http.NotFound], or what [fn] does with the title. *)
Definition makeHandler {R} (fn : string -> R) (path : string)
  : outcome (response + R) :=
  match FindStringSubmatch path with
  | None => Done (inl NotFound)
  | Some m =>
      match m !! 2%nat with
      | Some title => Done (inr (fn title))
      | None => Panic (IndexOutOfRange 2 (Z.of_nat (length m)))
      end
  end.

Definition viewHandler (title : string) (st : State) : response :=
  match load title (files st) with
  | None => Redirect ("/edit/" +:+ title) StatusFound
  | Some pageData =>
      RenderView "view.html" (Title pageData) (Body pageData)
        (availableTitlesRegExp st)
  end.

Definition editHandler (title : string) (st : State) : response :=
  let pageData :=
    match load title (files st) with
    | None => {| Title := title; Body := EmptyString |}
    | Some pageData => pageData
    end in
  RenderPage "edit.html" pageData.

Definition rootHandler (st : State) : response :=
  RenderTitles "frontPage.html" (availableWikiTitles st).

Definition updateWikiTitleList (title : string) (st : State) : State :=
  {| files := files st;
     availableTitlesPattern := availableTitlesPattern st;
     availableTitlesRegExp := availableTitlesRegExp st;
     availableWikiTitles := <[title := true]> (availableWikiTitles st) |}.

(** [strings.Split(name, ".")[0]]: the name up to its first dot. *)
Fixpoint beforeDot (name : string) : string :=
  match name with
  | EmptyString => EmptyString
  | String c rest =>
      if Ascii.eqb c "."%char then EmptyString else String c (beforeDot rest)
  end.

(** The loop of [init] over the directory entries. *)
Fixpoint initLoop (names : list string) (pattern : string)
    (titles : gmap string bool) : string * gmap string bool :=
  match names with
  | [] => (pattern, titles)
  | name :: rest =>
      let title := beforeDot name in
      initLoop rest (pattern +:+ title +:+ "|") (<[title := true]> titles)
  end.

Section Regexp.

(** Whether [regexp.Compile] accepts an expression. *)
Variable compiles : string -> bool.

(** [updateWikiTitlesRexEx]: the pattern grows, then the expression is
    recompiled; [Some expr] tells that [MustCompile] panicked on [expr],
    the pattern grown and the old expression still in place. *)
Definition updateWikiTitlesRexEx (title : string) (st : State)
  : State * option string :=
  let pattern := availableTitlesPattern st +:+ "|" +:+ title in
  let expr := "(" +:+ pattern +:+ ")" in
  if compiles expr then
    ({| files := files st;
        availableTitlesPattern := pattern;
        availableTitlesRegExp := expr;
        availableWikiTitles := availableWikiTitles st |}, None)
  else
    ({| files := files st;
        availableTitlesPattern := pattern;
        availableTitlesRegExp := availableTitlesRegExp st;
        availableWikiTitles := availableWikiTitles st |}, Some expr).

(** [saveHandler]; [body] is the form value ["body"], [failure] the fate
    of the write. *)
Definition saveHandler (title body : string)
    (failure : option (string * gmap string string)) (st : State)
  : response * State :=
  let newPageData := {| Title := title; Body := body |} in
  let '(fs, err) := save newPageData (files st) failure in
  let st1 :=
    {| files := fs;
       availableTitlesPattern := availableTitlesPattern st;
       availableTitlesRegExp := availableTitlesRegExp st;
       availableWikiTitles := availableWikiTitles st |} in
  match err with
  | Some message => (Error message StatusInternalServerError, st1)
  | None =>
      let isAlreadyPresent :=
        default false (availableWikiTitles st1 !! title) in
      if isAlreadyPresent then
        (Redirect ("/view/" +:+ title) StatusFound, st1)
      else
        match updateWikiTitlesRexEx title (updateWikiTitleList title st1) with
        | (st2, Some expr) => (MustCompilePanic expr, st2)
        | (st2, None) => (Redirect ("/view/" +:+ title) StatusFound, st2)
        end
  end.

(** [init]; [entries] is what [ioutil.ReadDir] returns for the data
    directory: the file names, or [None] for an error. *)
Definition init (fs : gmap string string) (entries : option (list string))
  : startup :=
  match entries with
  | None => Fatal
  | Some names =>
      let '(pattern, titles) := initLoop names EmptyString ∅ in
      if (String.length pattern =? 0)%nat then SliceBoundsOutOfRange (-1)
      else
        let pattern' := substring 0 (String.length pattern - 1) pattern in
        let expr := "(" +:+ pattern' +:+ ")" in
        if compiles expr then
          Started {| files := fs;
                     availableTitlesPattern := pattern';
                     availableTitlesRegExp := expr;
                     availableWikiTitles := titles |}
        else InitMustCompilePanic expr
  end.

End Regexp.

(** The known titles are in step with the list [ts]: the pattern is the
    titles joined by bars, and the map holds exactly the titles, each with
    [true]. *)
Definition inStep (ts : list string) (st : State) : Prop :=
  ts <> []
  /\ availableTitlesPattern st = String.concat "|" ts
  /\ forall t b, availableWikiTitles st !! t = Some b <-> b = true /\ t ∈ ts.

(** The titles after [title] has been saved. *)
Definition registered (ts : list string) (title : string) : list string :=
  if bool_decide (title ∈ ts) then ts else ts ++ [title].

End wiki.

(** ** Definitions used in the statements *)

(** The sizes after [matSizes[matID][idx] = v], for indices in range. *)
Definition withSize (matSizes : int2x2) (matID idx : nat) (v : Z) : int2x2 :=
  let put (row : int2) : int2 :=
    match idx with 0%nat => (v, snd row) | _ => (fst row, v) end in
  match matID with
  | 0%nat => (put (fst matSizes), snd matSizes)
  | _ => (fst matSizes, put (snd matSizes))
  end.

Section Specification.

Context {F : Type} `{Scalar F}.




Definition inKilo (x : F) : Prop := fle fzero x /\ flt x f1e3.

(** A matrix of [r] rows, each of [c] entries. *)
Definition rectangular (mat : matrix F) (r c : nat) : Prop :=
  length mat = r /\ Forall (fun row => length row = c) mat.

(** Row [i] and column [j] of a matrix, the sum of a list of scalars, and
    the dot product of two vectors. *)
Definition row (mat : matrix F) (i : nat) : list F := default [] (mat !! i).

Definition column (mat : matrix F) (j : nat) : list F :=
  (fun r : list F => default fzero (r !! j)) <$> mat.

Definition fsum (l : list F) : F := foldr fadd fzero l.

Definition dot (u v : list F) : F := fsum (zip_with fmul u v).

(** What the cell task for [(i, j)] computes, as written: [passes] times
    over, the products of row [i] of [mat1] and column [j] of [mat2] are
    added one after another onto the running result. *)
Definition accumulated (mat1 mat2 : matrix F) (i j : nat) (passes : nat) : F :=
  Nat.iter passes
    (fun result =>
       foldl fadd result (zip_with fmul (row mat1 i) (column mat2 j)))
    fzero.

(** The channel after [v] has been enqueued. *)
Definition enqueued (ch : chan F) (v : F) : chan F :=
  {| buf := buf ch ++ [v]; cap := cap ch |}.

(** The output coordinates, in the order of the two nested loops. *)
Definition grid (m p : nat) : list (nat * nat) :=
  list_prod (seq 0 m) (seq 0 p).

(** The scalar of the cell task for a coordinate, and the dot product at a
    coordinate. *)
Definition cell (mat1 mat2 : matrix F) (ij : nat * nat) : F :=
  accumulated mat1 mat2 (fst ij) (snd ij) 100.

Definition dotAt (mat1 mat2 : matrix F) (ij : nat * nat) : F :=
  dot (row mat1 (fst ij)) (column mat2 (snd ij)).

(** What an observer reads off the events of a run: the tasks spawned, the
    tasks whose scalar was enqueued, the scalars drained, each in order. *)
Definition spawned (e : event F) : option (nat * nat) :=
  match e with EvSpawn i j => Some (i, j) | _ => None end.

Definition sent (e : event F) : option (nat * nat) :=
  match e with EvSend i j => Some (i, j) | _ => None end.

Definition received (e : event F) : option F :=
  match e with EvRecv v => Some v | _ => None end.

Definition spawns (tr : list (event F)) : list (nat * nat) := omap spawned tr.
Definition sends (tr : list (event F)) : list (nat * nat) := omap sent tr.
Definition recvs (tr : list (event F)) : list F := omap received tr.

(** Events of generation and multiplication, against the handler's writes. *)
Definition computes (e : event F) : bool :=
  match e with
  | EvWrite _ | EvPrintln _ => false
  | _ => true
  end.

(** The steps the main goroutine has taken when it stands at [pc] (each
    loop iteration and each loop exit is one step), the steps of a whole
    configuration, and the number of steps of a complete run. *)
Definition mainSteps (m p : nat) (pc : mainpc) : nat :=
  match pc with
  | Spawning i j => i * S p + j
  | Draining i j => (m * S p + 1) + i * S p + j
  | Returned => 2 * (m * S p + 1)
  end.

Definition stepsTaken (m p : nat) (c : config F) : nat :=
  mainSteps m p (pc c) + length (sends (log c)).


(** The loop counters stay within the loop bounds. *)
Definition inBounds (m p : nat) (pc : mainpc) : Prop :=
  match pc with
  | Spawning i j | Draining i j =>
      (i <= m)%nat /\ (j <= p)%nat /\ (i = m -> j = 0%nat)
  | Returned => True
  end.

Definition spawnCount (m p : nat) (pc : mainpc) : nat :=
  match pc with
  | Spawning i j => i * p + j
  | _ => m * p
  end.

Definition drainCount (m p : nat) (pc : mainpc) : nat :=
  match pc with
  | Spawning _ _ => 0
  | Draining i j => i * p + j
  | Returned => m * p
  end.

(** What holds of every configuration a run reaches. *)
Record invariant (mat1 mat2 : matrix F) (m p capacity : nat) (c : config F)
  : Prop := {
  inv_pc : inBounds m p (pc c);
  inv_spawns : spawns (log c) = take (spawnCount m p (pc c)) (grid m p);
  inv_pool : spawns (log c) ≡ₚ sends (log c) ++ pool c;
  inv_chan :
    cell mat1 mat2 <$> sends (log c) = recvs (log c) ++ buf (sumCh c);
  inv_recvs : length (recvs (log c)) = drainCount m p (pc c);
  inv_sum : sum c = foldl fadd fzero (recvs (log c));
  inv_cap : cap (sumCh c) = capacity
}.


End Specification.

(** The field [matName] of the form holds exactly two tokens, the integers
    of [size]. *)
Definition fieldDenotes (request : Request) (matName : string) (size : int2)
  : Prop :=
  exists s more t0 t1,
    Form request !! matName = Some (s :: more)
    /\ sizeTokens s = [t0; t1]
    /\ strconv.Atoi t0 = Some (fst size)
    /\ strconv.Atoi t1 = Some (snd size).



(** A token that [strconv.Atoi] accepts. *)
Definition isInt (stringValue : string) : bool :=
  match strconv.Atoi stringValue with
  | Some _ => true
  | None => false
  end.

(** ** Requests used as examples *)

Definition form2 (a b : string) : Request :=
  {| ParseFormErr := None;
     Form := {[ "matASize" := [a]; "matBSize" := [b] ]} |}.

(** A form posted without the field [matASize]. *)
Definition formWithoutA : Request :=
  {| ParseFormErr := None; Form := {[ "matBSize" := ["2 3"] ]} |}.

(** A field of three integers, and a field whose fourth token is not an
    integer. *)
Definition formThreeInts : Request := form2 "1 2 3" "1 2".
Definition formLateBadToken : Request := form2 "1 2 3 x" "1 2".


(** Matrices used as examples: two 2 x 2 matrices of integers, and two
    1 x 1 matrices of binary64 values, the first holding the binary64 value
    nearest to one tenth. *)
Definition matA : matrix Z := [[1; 2]; [3; 4]].
Definition matB : matrix Z := [[5; 6]; [7; 8]].

Definition tenth : matrix float := [[0x1.999999999999ap-4%float]].
Definition unit64 : matrix float := [[1%float]].

(** An empty channel of capacity [n]. *)
Definition emptyChan {F} (n : nat) : chan F := {| buf := []; cap := n |}.

(** The arity message for a field whose first value is [s]. *)
Definition arityMessage (s : string) : string :=
  match s with
  | EmptyString => "2 numbers needed, 0 received"
  | _ => "2 numbers needed, only 1 received"
  end.

(** The tokens of the first value of field [matName] are [tokens]. *)
Definition fieldTokens (request : Request) (matName : string)
    (tokens : list string) : Prop :=
  exists s more,
    Form request !! matName = Some (s :: more) /\ sizeTokens s = tokens.

(** A schedule for a 2 x 2 output: the main goroutine spawns the four tasks,
    the tasks send in the order (0,0), (0,1), (1,1), (1,0), the main
    goroutine drains. *)
Definition sched22 : list actor :=
  replicate 7 Main ++ [Task 0; Task 0; Task 1; Task 0] ++ replicate 7 Main.

(** A schedule that stops after the four spawns and one send. *)
Definition sched22_partial : list actor := replicate 7 Main ++ [Task 2].

(** A world over the integers: the source yields 0, 1, 2, ... *)
Definition worldZ (sched : list actor) : World Z :=
  {| rand := {| stream := fun k => Z.of_nat k; cursor := 0 |};
     schedule := sched;
     elapsed := 7 |}.

Definition formNegativeRows : Request := form2 "-2 1" "1 2".

(** A form whose field A holds one token, and one whose field B is empty. *)
Definition formOneToken : Request := form2 "5" "1 2".
Definition formEmptyB : Request := form2 "2 3" "".

(** A form whose second token of field B is not an integer. *)
Definition formBadToken : Request := form2 "2 3" "3 x".

(** A form that failed to parse. *)
Definition formUnparsed : Request :=
  {| ParseFormErr := Some "invalid semicolon separator in query";
     Form := {[ "matASize" := ["2 3"] ]} |}.

(** The events of [matrixMultiply] on [matA] and [matB] under [sched22]. *)
Definition trace22 : list (event Z) :=
  [EvSpawn 0 0; EvSpawn 0 1; EvSpawn 1 0; EvSpawn 1 1;
   EvSend 0 0; EvSend 0 1; EvSend 1 1; EvSend 1 0;
   EvRecv 1900; EvRecv 2200; EvRecv 5000; EvRecv 4300].

(** A request of a 2 x 1 and a 1 x 2 matrix. *)
Definition form21 : Request := form2 "2 1" "1 2".

(** A wiki that knows the one title [home], with its page on disk, and a
    compiler of expressions that accepts every expression. *)
Definition homePath : string :=
  wiki.Join wiki.packageDir "data" "home.txt".

Definition wikiHome : wiki.State :=
  {| wiki.files := {[ homePath := "welcome" ]};
     wiki.availableTitlesPattern := "home";
     wiki.availableTitlesRegExp := "(home)";
     wiki.availableWikiTitles := {[ "home" := true ]} |}.

Definition acceptsAll (expr : string) : bool := true.

(** * Properties of the validator *)

Section Validator.

Implicit Types (request : Request) (matSizes : int2x2) (matID idx : nat).

Lemma Atoi_range s v :
  strconv.Atoi s = Some v -> strconv.minInt <= v <= strconv.maxInt.
Proof.
  unfold strconv.Atoi.
  destruct (match s with
            | String "-"%char r => (true, r)
            | String "+"%char r => (false, r)
            | _ => (false, s)
            end) as [neg body].
  destruct body; [discriminate|].
  destruct (strconv.digits 0 _); [|discriminate].
  destruct (_ && _) eqn:E; [|discriminate].
  intros [= <-]. apply andb_true_iff in E. lia.
Qed.

Lemma sizeTokens_empty : sizeTokens "" = [].
Proof. reflexivity. Qed.

Lemma setSize_in_range matSizes matID idx v :
  (matID < 2)%nat -> (idx < 2)%nat ->
  setSize matSizes matID idx v = Done (withSize matSizes matID idx v).
Proof.
  intros HmatID Hidx.
  destruct matID as [|[|?]]; [| |lia];
    destruct idx as [|[|?]]; try lia; reflexivity.
Qed.

Lemma setSize_out_of_range matSizes matID v :
  (matID < 2)%nat ->
  setSize matSizes matID 2 v = Panic (IndexOutOfRange 2 2).
Proof. intros HmatID. destruct matID as [|[|?]]; [| |lia]; reflexivity. Qed.

(** The token loop on exactly two integers stores both. *)
Lemma storeSizes_two matSizes matID t0 t1 v0 v1 :
  (matID < 2)%nat ->
  strconv.Atoi t0 = Some v0 -> strconv.Atoi t1 = Some v1 ->
  storeSizes matSizes matID 0 [t0; t1]
  = Done (Next (withSize (withSize matSizes matID 0 v0) matID 1 v1)).
Proof.
  intros HmatID H0 H1. simpl. rewrite H0. simpl.
  rewrite setSize_in_range by lia. simpl. rewrite H1.
  rewrite setSize_in_range by lia. reflexivity.
Qed.

(** On three integers or more it indexes the array at 2. *)
Lemma storeSizes_three matSizes matID t0 t1 t2 rest v0 v1 v2 :
  (matID < 2)%nat ->
  strconv.Atoi t0 = Some v0 -> strconv.Atoi t1 = Some v1 ->
  strconv.Atoi t2 = Some v2 ->
  storeSizes matSizes matID 0 (t0 :: t1 :: t2 :: rest)
  = Panic (IndexOutOfRange 2 2).
Proof.
  intros HmatID H0 H1 H2. simpl. rewrite H0. simpl.
  rewrite setSize_in_range by lia. simpl. rewrite H1.
  rewrite setSize_in_range by lia. simpl. rewrite H2.
  rewrite setSize_out_of_range by lia. reflexivity.
Qed.

(** The loop falls through only on exactly two integers. *)
Lemma storeSizes_Next matSizes matID sizeValues matSizes' :
  (matID < 2)%nat -> (2 <= length sizeValues)%nat ->
  storeSizes matSizes matID 0 sizeValues = Done (Next matSizes') ->
  exists t0 t1 v0 v1,
    sizeValues = [t0; t1]
    /\ strconv.Atoi t0 = Some v0 /\ strconv.Atoi t1 = Some v1
    /\ matSizes' = withSize (withSize matSizes matID 0 v0) matID 1 v1.
Proof.
  intros HmatID Hlen.
  destruct sizeValues as [|t0 [|t1 rest]]; simpl in Hlen; try lia.
  simpl. destruct (strconv.Atoi t0) as [v0|] eqn:H0; [|discriminate].
  simpl. rewrite setSize_in_range by lia. simpl.
  destruct (strconv.Atoi t1) as [v1|] eqn:H1; [|discriminate].
  rewrite setSize_in_range by lia. simpl.
  destruct rest as [|t2 rest].
  - intros [= <-]. exists t0, t1, v0, v1. auto.
  - simpl. destruct (strconv.Atoi t2) as [v2|]; [|discriminate].
    rewrite setSize_out_of_range by lia. discriminate.
Qed.

(** The loop returns an error result only for a token that is not an
    integer, and names it. *)
Lemma storeSizes_Return matSizes matID idx sizeValues r :
  storeSizes matSizes matID idx sizeValues = Done (Return r) ->
  exists matSizes' stringValue,
    stringValue ∈ sizeValues
    /\ strconv.Atoi stringValue = None
    /\ r = (matSizes', stringValue +:+ " is an invalid input", false).
Proof.
  revert matSizes idx.
  induction sizeValues as [|t rest IH]; intros matSizes idx; simpl.
  - discriminate.
  - destruct (strconv.Atoi t) as [v|] eqn:Ht.
    + destruct (setSize matSizes matID idx v) as [m'| |]; simpl;
        try discriminate.
      intros Hrun. destruct (IH _ _ Hrun) as (m'' & bad & Hin & Hbad & ->).
      exists m'', bad. split; [by apply list_elem_of_further|auto].
    + intros [= <-]. exists matSizes, t.
      split; [by apply list_elem_of_here|auto].
Qed.

(** What one field does, by the state of the form. *)
Lemma processField_absent request matSizes matID matName :
  Form request !! matName = None ->
  processField request matSizes matID matName = Panic (IndexOutOfRange 0 0).
Proof. intros Hf. unfold processField, mapIndex. by rewrite Hf. Qed.

Lemma processField_empty request matSizes matID matName more :
  Form request !! matName = Some ("" :: more) ->
  processField request matSizes matID matName
  = Done (Return (matSizes, "2 numbers needed, 0 received", false)).
Proof. intros Hf. unfold processField, mapIndex. by rewrite Hf. Qed.

Lemma processField_tokens request matSizes matID matName s more :
  Form request !! matName = Some (s :: more) -> s <> "" ->
  processField request matSizes matID matName
  = if (length (sizeTokens s) <? 2)%nat
    then Done (Return (matSizes, "2 numbers needed, only 1 received", false))
    else storeSizes matSizes matID 0 (sizeTokens s).
Proof.
  intros Hf Hs. unfold processField, mapIndex. rewrite Hf.
  destruct s; [done|]. reflexivity.
Qed.

(** A field lets the outer loop go on only when it holds exactly two
    integers. *)
Lemma processField_Next request matSizes matID matName matSizes' :
  (matID < 2)%nat ->
  processField request matSizes matID matName = Done (Next matSizes') ->
  exists s more t0 t1 v0 v1,
    Form request !! matName = Some (s :: more)
    /\ sizeTokens s = [t0; t1]
    /\ strconv.Atoi t0 = Some v0 /\ strconv.Atoi t1 = Some v1
    /\ matSizes' = withSize (withSize matSizes matID 0 v0) matID 1 v1.
Proof.
  intros HmatID.
  destruct (Form request !! matName) as [[|s more]|] eqn:Hf.
  - unfold processField, mapIndex. rewrite Hf. discriminate.
  - destruct (decide (s = "")) as [->|Hs].
    + erewrite processField_empty by eassumption. discriminate.
    + erewrite processField_tokens by eassumption.
      destruct (_ <? _)%nat eqn:Hlen; [discriminate|].
      apply Nat.ltb_ge in Hlen. intros Hrun.
      destruct (storeSizes_Next _ _ _ _ HmatID Hlen Hrun)
        as (t0 & t1 & v0 & v1 & ? & ? & ? & ?).
      exists s, more, t0, t1, v0, v1. auto.
  - erewrite processField_absent by eassumption. discriminate.
Qed.

(** Every error result has [ok = false]. *)
Lemma processField_Return request matSizes matID matName r :
  processField request matSizes matID matName = Done (Return r) ->
  exists matSizes' message, r = (matSizes', message, false).
Proof.
  unfold processField, mapIndex.
  destruct (Form request !! matName) as [[|s more]|]; try discriminate.
  destruct (true && _); [|intros [= <-]; eauto].
  destruct (_ <? _)%nat; [intros [= <-]; eauto|].
  intros Hrun. apply storeSizes_Return in Hrun as (m & t & _ & _ & ->). eauto.
Qed.

(** A token that is not an integer, after at most two integers, ends the
    loop with the error result that names it. *)
Lemma storeSizes_parse_error matSizes matID idx pre bad post :
  (matID < 2)%nat -> (idx + length pre <= 2)%nat ->
  forallb isInt pre = true -> strconv.Atoi bad = None ->
  exists matSizes',
    storeSizes matSizes matID idx (pre ++ bad :: post)
    = Done (Return (matSizes', bad +:+ " is an invalid input", false)).
Proof.
  intros HmatID. revert matSizes idx.
  induction pre as [|t pre IH]; intros matSizes idx Hidx Hpre Hbad; simpl.
  - rewrite Hbad. eauto.
  - simpl in Hpre, Hidx. apply andb_true_iff in Hpre as [Ht Hpre].
    unfold isInt in Ht. destruct (strconv.Atoi t) as [v|]; [|discriminate].
    rewrite setSize_in_range by lia. simpl.
    apply IH; [lia|done..].
Qed.

Lemma processRequest_fieldA request :
  processRequest request
  = (step ← processField request ((0, 0), (0, 0)) 0 "matASize";
     match step with
     | Return r => Done r
     | Next matSizes' =>
         step' ← processField request matSizes' 1 "matBSize";
         match step' with
         | Return r => Done r
         | Next matSizes'' => Done (matSizes'', "", true)
         end
     end).
Proof.
  unfold processRequest. simpl.
  destruct (processField _ _ 0%nat _) as [[m|r]| |]; simpl; try reflexivity;
    destruct (processField _ _ 1%nat _) as [[m'|r']| |]; reflexivity.
Qed.

(** A field whose first three tokens are integers: the store at index 2. *)
Lemma processField_three_integers request matSizes matID matName s more :
  (matID < 2)%nat ->
  Form request !! matName = Some (s :: more) ->
  (3 <= length (sizeTokens s))%nat ->
  forallb isInt (take 3 (sizeTokens s)) = true ->
  processField request matSizes matID matName = Panic (IndexOutOfRange 2 2).
Proof.
  intros HmatID Hf Hlen Hint.
  assert (s <> "") as Hs by (intros ->; simpl in Hlen; lia).
  rewrite (processField_tokens _ _ _ _ _ _ Hf Hs).
  destruct (sizeTokens s) as [|t0 [|t1 [|t2 rest]]]; simpl in Hlen; try lia.
  simpl in Hint. unfold isInt in Hint.
  destruct (strconv.Atoi t0) as [v0|] eqn:H0; [|discriminate].
  destruct (strconv.Atoi t1) as [v1|] eqn:H1; [|discriminate].
  destruct (strconv.Atoi t2) as [v2|] eqn:H2; [|discriminate].
  change (length _ <? 2)%nat with false. cbv iota.
  by eapply storeSizes_three.
Qed.

(** A field of exactly two integers. *)
Lemma processField_two_integers request matSizes matID matName s more :
  (matID < 2)%nat ->
  Form request !! matName = Some (s :: more) ->
  length (sizeTokens s) = 2%nat ->
  forallb isInt (sizeTokens s) = true ->
  exists matSizes',
    processField request matSizes matID matName = Done (Next matSizes').
Proof.
  intros HmatID Hf Hlen Hint.
  assert (s <> "") as Hs by (intros ->; simpl in Hlen; lia).
  rewrite (processField_tokens _ _ _ _ _ _ Hf Hs).
  destruct (sizeTokens s) as [|t0 [|t1 [|t2 rest]]]; simpl in Hlen; try lia.
  simpl in Hint. unfold isInt in Hint.
  destruct (strconv.Atoi t0) as [v0|] eqn:H0; [|discriminate].
  destruct (strconv.Atoi t1) as [v1|] eqn:H1; [|discriminate].
  change (length _ <? 2)%nat with false. cbv iota.
  erewrite storeSizes_two by eassumption. eauto.
Qed.

(** C4: [canMultiply] succeeds exactly when the columns of A equal the rows
    of B; when they differ it returns the message that states both shapes,
    "matrix with size r * c cannot be multiplied with matrix of size r' * c'",
    as on the shapes 2 * 3 and 4 * 2 of the specification's scenario. *)
Theorem canMultiply_iff_inner_sizes_agree (matAsize matBsize : int2) :
  (fst (canMultiply matAsize matBsize) = true
   <-> snd matAsize = fst matBsize)
  /\ (fst (canMultiply matAsize matBsize) = true
      -> snd (canMultiply matAsize matBsize) = "")
  /\ (fst (canMultiply matAsize matBsize) = false
      -> snd (canMultiply matAsize matBsize)
         = "matrix with size " +:+ fmt_d (fst matAsize) +:+ " * "
           +:+ fmt_d (snd matAsize)
           +:+ " cannot be multiplied with matrix of size "
           +:+ fmt_d (fst matBsize) +:+ " * " +:+ fmt_d (snd matBsize))
  /\ canMultiply (2, 3) (4, 2)
     = (false,
        "matrix with size 2 * 3 cannot be multiplied with matrix of size 4 * 2").
Proof.
  unfold canMultiply.
  destruct (Z.eqb_spec (snd matAsize) (fst matBsize)) as [Heq|Hne]; simpl.
  - repeat split; auto; discriminate.
  - repeat split; auto; try discriminate; contradiction.
Qed.

(** C6 (the code departs from it): a form without the field [matASize] makes
    [processRequest] index the nil slice, so the validator panics where the
    claim promises the arity error result. *)
Theorem processRequest_absent_field_panics :
  Form formWithoutA !! "matASize" = None
  /\ processRequest formWithoutA = Panic (IndexOutOfRange 0 0).
Proof. split; by vm_compute. Qed.

(** C7 (the code departs from it): in "1 2 3 x" the token "x" is not an
    integer, yet the validator panics on storing the third integer before it
    reaches that token. *)
Theorem processRequest_late_bad_token_panics :
  sizeTokens "1 2 3 x" = ["1"; "2"; "3"; "x"]
  /\ strconv.Atoi "x" = None
  /\ processRequest formLateBadToken = Panic (IndexOutOfRange 2 2).
Proof. repeat split; by vm_compute. Qed.

(** C10: when a size field splits into three or more tokens of which the
    first three are integers (the field of A, or the field of B after a
    well-formed A), [processRequest] stores at index 2 of the two-element
    array: it panics and returns neither a success nor an error result. *)
Theorem processRequest_three_integers_panics request :
  (exists s more,
      Form request !! "matASize" = Some (s :: more)
      /\ (3 <= length (sizeTokens s))%nat
      /\ forallb isInt (take 3 (sizeTokens s)) = true)
  \/ (exists a moreA b moreB,
         Form request !! "matASize" = Some (a :: moreA)
         /\ length (sizeTokens a) = 2%nat
         /\ forallb isInt (sizeTokens a) = true
         /\ Form request !! "matBSize" = Some (b :: moreB)
         /\ (3 <= length (sizeTokens b))%nat
         /\ forallb isInt (take 3 (sizeTokens b)) = true) ->
  processRequest request = Panic (IndexOutOfRange 2 2).
Proof.
  rewrite processRequest_fieldA.
  intros [(s & more & Hf & Hlen & Hint)
         |(a & moreA & b & moreB & HfA & HlenA & HintA & HfB & HlenB & HintB)].
  - erewrite processField_three_integers; [reflexivity|lia|eassumption..].
  - destruct (processField_two_integers request ((0, 0), (0, 0)) 0 "matASize"
                a moreA) as [m Hm]; [lia|done..|].
    rewrite Hm. simpl.
    erewrite processField_three_integers; [reflexivity|lia|eassumption..].
Qed.

Lemma processRequest_three_integers_panics_witness :
  ((exists s more,
      Form formThreeInts !! "matASize" = Some (s :: more)
      /\ (3 <= length (sizeTokens s))%nat
      /\ forallb isInt (take 3 (sizeTokens s)) = true)
   \/ (exists a moreA b moreB,
         Form formThreeInts !! "matASize" = Some (a :: moreA)
         /\ length (sizeTokens a) = 2%nat
         /\ forallb isInt (sizeTokens a) = true
         /\ Form formThreeInts !! "matBSize" = Some (b :: moreB)
         /\ (3 <= length (sizeTokens b))%nat
         /\ forallb isInt (take 3 (sizeTokens b)) = true))
  /\ processRequest formThreeInts = Panic (IndexOutOfRange 2 2).
Proof.
  assert (exists s more,
      Form formThreeInts !! "matASize" = Some (s :: more)
      /\ (3 <= length (sizeTokens s))%nat
      /\ forallb isInt (take 3 (sizeTokens s)) = true) as Hyp.
  { exists "1 2 3", []. split; [by vm_compute|].
    split; [vm_compute; lia|by vm_compute]. }
  split; [by left|].
  apply (processRequest_three_integers_panics formThreeInts). by left.
Defined.

End Validator.

(** * Properties of the matrix generator *)

Section Generator.

Context {F : Type} `{Scalar F}.

Implicit Types (r : Rand F) (row : list F) (mat : matrix F).






















End Generator.




(** At the ends of [[0, 1)] binary64 scaling stays inside [[0, 1000)]: the
    largest value below 1 is sent to the largest value below 1000. *)
Example scale_inKilo_binary64_ends :
  inKilo (fmul (F:=float) 0%float f1e3)
  /\ inKilo (fmul (F:=float) 0x1.fffffffffffffp-1%float f1e3)
  /\ fmul (F:=float) 0x1.fffffffffffffp-1%float f1e3
     = 0x1.f3fffffffffffp+9%float.
Proof. repeat split; by vm_compute. Qed.



(** * Properties of the cell task *)

Section CellTask.

Context {F : Type} `{Scalar F}.

Implicit Types (u v : list F) (ch : chan F).

Lemma index_lookup {A} (l : list A) (i : nat) (x : A) :
  l !! i = Some x -> index l i = Done x.
Proof. intros Hl. unfold index. by rewrite Hl. Qed.

Lemma rectangular_row (mat1 : matrix F) m n i :
  rectangular mat1 m n -> (i < m)%nat ->
  mat1 !! i = Some (row mat1 i) /\ length (row mat1 i) = n.
Proof.
  intros [Hlen Hrows] Hi. unfold row.
  destruct (lookup_lt_is_Some_2 mat1 i) as [u Hu]; [lia|].
  rewrite Hu. simpl. split; [done|].
  by apply (Forall_lookup_1 _ _ _ _ Hrows Hu).
Qed.

Lemma rectangular_entry (mat2 : matrix F) n p c j :
  rectangular mat2 n p -> (c < n)%nat -> (j < p)%nat ->
  exists r b, mat2 !! c = Some r /\ r !! j = Some b
              /\ column mat2 j !! c = Some b.
Proof.
  intros Hrect Hc Hj.
  destruct (rectangular_row _ _ _ _ Hrect Hc) as [Hr Hlen].
  destruct (lookup_lt_is_Some_2 (row mat2 c) j) as [b Hb]; [lia|].
  exists (row mat2 c), b. split; [done|]. split; [done|].
  unfold column. rewrite list_lookup_fmap, Hr. simpl. by rewrite Hb.
Qed.

(** One pass of the inner loop from column [k] on: the next [len] products
    are added onto [result], left to right. *)
Lemma dotRow_seq (mat1 mat2 : matrix F) m n p i j k len (result : F) :
  rectangular mat1 m n -> rectangular mat2 n p ->
  (i < m)%nat -> (j < p)%nat -> (k + len <= n)%nat ->
  dotRow mat1 mat2 i j (seq k len) result
  = Done (foldl fadd result
            (take len (drop k (zip_with fmul (row mat1 i) (column mat2 j))))).
Proof.
  intros H1 H2 Hi Hj. revert k result.
  destruct (rectangular_row _ _ _ _ H1 Hi) as [Hu Hulen].
  induction len as [|len IH]; intros k result Hk; [done|].
  destruct (lookup_lt_is_Some_2 (row mat1 i) k) as [a Ha]; [lia|].
  destruct (rectangular_entry mat2 n p k j H2) as (r & b & Hr & Hb & Hv);
    [lia|done|].
  cbn [seq dotRow].
  rewrite (index_lookup _ _ _ Hu). simpl.
  rewrite (index_lookup _ _ _ Ha). simpl.
  rewrite (index_lookup _ _ _ Hr). simpl.
  rewrite (index_lookup _ _ _ Hb). simpl.
  rewrite IH by lia.
  assert (zip_with fmul (row mat1 i) (column mat2 j) !! k = Some (fmul a b))
    as Hterm by (by rewrite lookup_zip_with, Ha, Hv).
  by rewrite (drop_S _ _ _ Hterm).
Qed.

Lemma length_column (mat2 : matrix F) j : length (column mat2 j) = length mat2.
Proof. unfold column. by rewrite length_fmap. Qed.

(** The passes of the outer loop. *)
Lemma dotPasses_iter (mat1 mat2 : matrix F) m n p i j passes (result : F) :
  rectangular mat1 m n -> rectangular mat2 n p ->
  (i < m)%nat -> (j < p)%nat ->
  dotPasses mat1 mat2 i j passes result
  = Done (Nat.iter passes
            (fun result =>
               foldl fadd result
                 (zip_with fmul (row mat1 i) (column mat2 j)))
            result).
Proof.
  intros H1 H2 Hi Hj. revert result.
  destruct (rectangular_row _ _ _ _ H1 Hi) as [Hu Hulen].
  induction passes as [|passes IH]; intros result; [done|].
  rewrite Nat.iter_succ_r.
  cbn [dotPasses]. rewrite (index_lookup _ _ _ Hu). simpl.
  rewrite (dotRow_seq mat1 mat2 m n p) by (done || lia). simpl.
  rewrite IH. do 3 f_equal.
  rewrite drop_0. apply take_ge.
  rewrite length_zip_with, length_column. destruct H2 as [-> _]. lia.
Qed.

(** Whatever the arithmetic, the cell task enqueues the accumulation of its
    100 passes. *)
Lemma dotProduct_accumulated (mat1 mat2 : matrix F) m n p i j ch :
  rectangular mat1 m n -> rectangular mat2 n p ->
  (i < m)%nat -> (j < p)%nat -> (length (buf ch) < cap ch)%nat ->
  dotProduct mat1 mat2 i j ch
  = Done (enqueued ch (accumulated mat1 mat2 i j 100)).
Proof.
  intros H1 H2 Hi Hj Hroom. unfold dotProduct.
  rewrite (dotPasses_iter mat1 mat2 m n p) by done.
  change (Done ?x ≫= ?k) with (k x). cbv beta.
  unfold send. destruct (Nat.ltb_spec (length (buf ch)) (cap ch)); [done|lia].
Qed.

(** In exact arithmetic adding a list onto a result adds its sum. *)
Lemma foldl_fadd_fsum `{!ExactArith F} (l : list F) (result : F) :
  foldl fadd result l = fadd result (fsum l).
Proof.
  revert result. induction l as [|x l IH]; intros result; simpl.
  - by rewrite fadd_comm, fadd_0_l.
  - by rewrite IH, fadd_assoc.
Qed.

Lemma accumulated_exact `{!ExactArith F} (mat1 mat2 : matrix F) i j passes :
  accumulated mat1 mat2 i j passes
  = fmul (fnat passes) (dot (row mat1 i) (column mat2 j)).
Proof.
  unfold accumulated, dot. induction passes as [|passes IH]; simpl.
  - by rewrite fmul_0_l.
  - rewrite IH, foldl_fadd_fsum, fmul_add_distr_r, fmul_1_l. reflexivity.
Qed.

(** C1, as amended: for rectangular A (m rows of n) and B (n rows of p) and
    every coordinate [(i, j)] of the output, the cell task enqueues one
    scalar, the accumulation of 100 passes over the products of row [i] of A
    and column [j] of B; in exact arithmetic that scalar is 100 times the dot
    product of the row and the column. *)
Theorem dotProduct_publishes_100_dot (mat1 mat2 : matrix F) m n p i j ch :
  rectangular mat1 m n -> rectangular mat2 n p ->
  (i < m)%nat -> (j < p)%nat -> (length (buf ch) < cap ch)%nat ->
  dotProduct mat1 mat2 i j ch
  = Done (enqueued ch (accumulated mat1 mat2 i j 100))
  /\ (ExactArith F ->
      accumulated mat1 mat2 i j 100
      = fmul (fnat 100) (dot (row mat1 i) (column mat2 j))).
Proof.
  intros H1 H2 Hi Hj Hroom. split.
  - by eapply dotProduct_accumulated.
  - intros Hexact. apply accumulated_exact.
Qed.

End CellTask.

(** The integers are an exact arithmetic. *)
#[global] Instance exactZ_laws : ExactArith Z.
Proof. split; simpl; intros; lia. Qed.

Lemma dotProduct_publishes_100_dot_witness :
  rectangular matA 2 2 /\ rectangular matB 2 2
  /\ (1 < 2)%nat /\ (0 < 2)%nat
  /\ (length (buf (emptyChan (F:=Z) 4)) < cap (emptyChan (F:=Z) 4))%nat
  /\ dotProduct matA matB 1 0 (emptyChan 4)
     = Done (enqueued (emptyChan 4) (accumulated matA matB 1 0 100))
  /\ (ExactArith Z ->
      accumulated matA matB 1 0 100
      = fmul (fnat 100) (dot (row matA 1) (column matB 0))).
Proof.
  assert (rectangular matA 2 2) as HA
    by (split; [done|repeat constructor]).
  assert (rectangular matB 2 2) as HB
    by (split; [done|repeat constructor]).
  assert (length (buf (emptyChan (F:=Z) 4)) < cap (emptyChan (F:=Z) 4))%nat
    as Hroom by (simpl; lia).
  split; [exact HA|]. split; [exact HB|].
  split; [lia|]. split; [lia|]. split; [exact Hroom|].
  apply (dotProduct_publishes_100_dot matA matB 2 2 2 1 0 (emptyChan 4));
    [exact HA|exact HB|lia|lia|exact Hroom].
Defined.

(** C1 fails as stated in binary64: for A = [[0.1]] and B = [[1]] (every
    product is exact) the cell task publishes 9.99999999999998..., below
    100 times the dot product, which is 10. *)
Lemma dotProduct_binary64_not_100_dot :
  dotProduct tenth unit64 0 0 (emptyChan 1)
  = Done {| buf := [0x1.3fffffffffff5p+3%float]; cap := 1 |}
  /\ fmul (fnat 100) (dot (row tenth 0) (column unit64 0)) = 10%float
  /\ PrimFloat.ltb 0x1.3fffffffffff5p+3 10 = true.
Proof. repeat split; by vm_compute. Qed.

(** * Properties of the multiplier *)

Section MultiplierFacts.

Context {F : Type} `{Scalar F}.

Variables (mat1 mat2 : matrix F) (m n p capacity : nat).
Hypothesis Hmat1 : rectangular mat1 m n.
Hypothesis Hmat2 : rectangular mat2 n p.

Implicit Types (c : config F) (tr : list (event F)) (ch : chan F).

Lemma length_grid : length (grid m p) = (m * p)%nat.
Proof. unfold grid. by rewrite length_prod, !length_seq. Qed.

Lemma elem_of_grid i j : (i, j) ∈ grid m p <-> (i < m)%nat /\ (j < p)%nat.
Proof.
  unfold grid. rewrite list_elem_of_In, in_prod_iff, !in_seq. lia.
Qed.

Lemma grid_lookup_from a rows i j :
  (i < rows)%nat -> (j < p)%nat ->
  list_prod (seq a rows) (seq 0 p) !! (i * p + j)%nat = Some ((a + i)%nat, j).
Proof.
  revert a i. induction rows as [|rows IH]; intros a i Hi Hj; [lia|].
  cbn [seq list_prod]. destruct i as [|i].
  - rewrite lookup_app_l by (rewrite length_map, length_seq; lia).
    simpl. rewrite Nat.add_0_r.
    change (map (pair a) (seq 0 p)) with (pair a <$> seq 0 p).
    rewrite list_lookup_fmap, lookup_seq_lt by lia. reflexivity.
  - rewrite lookup_app_r by (rewrite length_map, length_seq; lia).
    rewrite length_map, length_seq.
    replace (S i * p + j - p)%nat with (i * p + j)%nat by lia.
    rewrite IH by lia. do 2 f_equal. lia.
Qed.

Lemma grid_lookup i j :
  (i < m)%nat -> (j < p)%nat -> grid m p !! (i * p + j)%nat = Some (i, j).
Proof. intros Hi Hj. unfold grid. by rewrite grid_lookup_from. Qed.

(** The observer's readings of a trace extended by one event. *)
Lemma spawns_snoc tr e :
  spawns (tr ++ [e]) = spawns tr ++ from_option (fun x => [x]) [] (spawned e).
Proof. unfold spawns. rewrite omap_app. simpl. by destruct (spawned e). Qed.

Lemma sends_snoc tr e :
  sends (tr ++ [e]) = sends tr ++ from_option (fun x => [x]) [] (sent e).
Proof. unfold sends. rewrite omap_app. simpl. by destruct (sent e). Qed.

Lemma recvs_snoc tr e :
  recvs (tr ++ [e]) = recvs tr ++ from_option (fun x => [x]) [] (received e).
Proof. unfold recvs. rewrite omap_app. simpl. by destruct (received e). Qed.

(** A task of the pool stands for a coordinate of the output. *)
Lemma invariant_pool_in_grid c k i j :
  invariant mat1 mat2 m p capacity c -> pool c !! k = Some (i, j) ->
  (i < m)%nat /\ (j < p)%nat.
Proof.
  intros Hinv Hk. apply elem_of_grid.
  assert ((i, j) ∈ spawns (log c)) as Hin.
  { rewrite (inv_pool _ _ _ _ _ _ Hinv). apply elem_of_app. right.
    by eapply list_elem_of_lookup_2. }
  rewrite (inv_spawns _ _ _ _ _ _ Hinv) in Hin.
  by eapply subseteq_take.
Qed.

(** The cell task of a coordinate of the output: it enqueues its scalar
    when the channel has room, and waits otherwise. *)
Lemma dotProduct_in_grid i j ch :
  (i < m)%nat -> (j < p)%nat ->
  dotProduct mat1 mat2 i j ch
  = if (length (buf ch) <? cap ch)%nat
    then Done (enqueued ch (cell mat1 mat2 (i, j)))
    else Blocked.
Proof.
  intros Hi Hj. unfold dotProduct.
  rewrite (dotPasses_iter mat1 mat2 m n p) by done.
  reflexivity.
Qed.

Lemma invariant_start ch :
  buf ch = [] -> cap ch = capacity ->
  invariant mat1 mat2 m p capacity (start ch).
Proof.
  intros Hbuf Hcap.
  split; simpl; rewrite ?Hbuf; try done; repeat split; lia.
Qed.

(** A step of the main goroutine keeps the invariant and counts as one
    step; it never panics. *)
Lemma stepMain_invariant c :
  invariant mat1 mat2 m p capacity c ->
  match stepMain m p c with
  | Done c' =>
      invariant mat1 mat2 m p capacity c'
      /\ stepsTaken m p c' = S (stepsTaken m p c)
  | Panic _ => False
  | Blocked => True
  end.
Proof.
  intros [Hpc Hspawns Hpool Hchan Hrecvs Hsum Hcap].
  unfold stepMain, stepsTaken.
  destruct (pc c) as [i j|i j|] eqn:Epc; simpl in *; [| |done].
  - (* the spawning loops *)
    destruct Hpc as (Hi & Hj & Hij).
    destruct (Nat.ltb_spec i m) as [Him|Him];
      [destruct (Nat.ltb_spec j p) as [Hjp|Hjp]|].
    + split; [split; simpl|simpl; rewrite sends_snoc, app_nil_r; lia].
      * repeat split; lia.
      * rewrite spawns_snoc, Hspawns. simpl.
        rewrite Nat.add_succ_r. symmetry. apply take_S_r.
        by apply grid_lookup.
      * rewrite spawns_snoc, sends_snoc, app_nil_r. simpl.
        rewrite Hpool. by rewrite app_assoc.
      * by rewrite sends_snoc, recvs_snoc, !app_nil_r.
      * by rewrite recvs_snoc, app_nil_r.
      * by rewrite recvs_snoc, app_nil_r.
      * done.
    + assert (j = p) as -> by lia.
      split; [split; simpl; try done|simpl; lia].
      * repeat split; lia.
      * rewrite Hspawns. f_equal. lia.
    + assert (i = m) as -> by lia. rewrite (Hij eq_refl) in *.
      split; [split; simpl; try done|simpl; lia].
      * repeat split; lia.
      * rewrite Hspawns. f_equal. lia.
      * apply nil_length_inv in Hrecvs. by rewrite Hrecvs.
  - (* the draining loops *)
    destruct Hpc as (Hi & Hj & Hij).
    destruct (Nat.ltb_spec i m) as [Him|Him];
      [destruct (Nat.ltb_spec j p) as [Hjp|Hjp]|].
    + unfold recv. destruct (buf (sumCh c)) as [|v rest] eqn:Ebuf; [done|].
      simpl.
      split; [split; simpl|simpl; rewrite sends_snoc, app_nil_r; lia].
      * repeat split; lia.
      * by rewrite spawns_snoc, app_nil_r.
      * by rewrite spawns_snoc, sends_snoc, !app_nil_r.
      * rewrite sends_snoc, recvs_snoc, app_nil_r. simpl.
        by rewrite Hchan, <- app_assoc.
      * rewrite recvs_snoc. simpl. rewrite length_app. simpl. lia.
      * rewrite recvs_snoc. simpl. by rewrite foldl_snoc, Hsum.
      * done.
    + assert (j = p) as -> by lia.
      split; [split; simpl; try done|simpl; lia].
      * repeat split; lia.
      * rewrite Hrecvs. lia.
    + assert (i = m) as -> by lia. rewrite (Hij eq_refl) in *.
      split; [split; simpl; try done|simpl; lia].
      rewrite Hrecvs. lia.
Qed.

(** So does the step of a cell task. *)
Lemma stepTask_invariant k c :
  invariant mat1 mat2 m p capacity c ->
  match stepTask mat1 mat2 k c with
  | Done c' =>
      invariant mat1 mat2 m p capacity c'
      /\ stepsTaken m p c' = S (stepsTaken m p c)
  | Panic _ => False
  | Blocked => True
  end.
Proof.
  intros Hinv. unfold stepTask.
  destruct (pool c !! k) as [[i j]|] eqn:Hk; [|done].
  destruct (invariant_pool_in_grid _ _ _ _ Hinv Hk) as [Hi Hj].
  rewrite dotProduct_in_grid by done.
  destruct (length (buf (sumCh c)) <? cap (sumCh c))%nat; [|done].
  simpl. destruct Hinv as [Hpc Hspawns Hpool Hchan Hrecvs Hsum Hcap].
  unfold stepsTaken.
  split; [split; simpl|simpl; rewrite sends_snoc, length_app; simpl; lia].
  - done.
  - by rewrite spawns_snoc, app_nil_r.
  - rewrite spawns_snoc, sends_snoc, app_nil_r. simpl.
    rewrite Hpool, <- app_assoc. simpl.
    by rewrite <- (delete_Permutation _ _ _ Hk).
  - rewrite sends_snoc, recvs_snoc, app_nil_r. simpl.
    by rewrite fmap_app, Hchan, <- app_assoc.
  - by rewrite recvs_snoc, app_nil_r.
  - by rewrite recvs_snoc, app_nil_r.
  - done.
Qed.

Lemma step_invariant a c :
  invariant mat1 mat2 m p capacity c ->
  match step mat1 mat2 m p a c with
  | Done c' =>
      invariant mat1 mat2 m p capacity c'
      /\ stepsTaken m p c' = S (stepsTaken m p c)
  | Panic _ => False
  | Blocked => True
  end.
Proof.
  destruct a as [|k]; [apply stepMain_invariant|apply stepTask_invariant].
Qed.

(** A run keeps the invariant, takes as many steps as its schedule is long,
    and never panics. *)
Lemma run_invariant sched c :
  invariant mat1 mat2 m p capacity c ->
  match run mat1 mat2 m p sched c with
  | Done c' =>
      invariant mat1 mat2 m p capacity c'
      /\ stepsTaken m p c' = (length sched + stepsTaken m p c)%nat
  | Panic _ => False
  | Blocked => True
  end.
Proof.
  revert c. induction sched as [|a sched IH]; intros c Hinv; [done|].
  cbn [run]. pose proof (step_invariant a c Hinv) as Hstep.
  destruct (step mat1 mat2 m p a c) as [c1| |]; [|done..].
  destruct Hstep as [Hinv1 Hsteps1].
  change (Done c1 ≫= ?k) with (k c1). cbv beta.
  pose proof (IH c1 Hinv1) as Hrun.
  destruct (run mat1 mat2 m p sched c1) as [c'| |]; [|done..].
  destruct Hrun as [Hinv' Hsteps']. split; [done|].
  rewrite Hsteps', Hsteps1. simpl. lia.
Qed.

(** When the main goroutine has returned, every task has been spawned and
    has sent, and every scalar sent has been drained. *)
Lemma invariant_Returned c :
  invariant mat1 mat2 m p capacity c -> pc c = Returned ->
  spawns (log c) = grid m p
  /\ sends (log c) ≡ₚ grid m p
  /\ recvs (log c) = cell mat1 mat2 <$> sends (log c)
  /\ pool c = [] /\ buf (sumCh c) = [].
Proof.
  intros [Hpc Hspawns Hpool Hchan Hrecvs Hsum Hcap] Epc.
  rewrite Epc in *. simpl in *.
  rewrite take_ge in Hspawns by (rewrite length_grid; lia).
  pose proof (Permutation_length Hpool) as Hlen1.
  pose proof (f_equal length Hchan) as Hlen2.
  rewrite Hspawns, length_grid, length_app in Hlen1.
  rewrite length_fmap, length_app, Hrecvs in Hlen2.
  assert (pool c = []) as Epool by (apply nil_length_inv; lia).
  assert (buf (sumCh c) = []) as Ebuf by (apply nil_length_inv; lia).
  rewrite Epool, app_nil_r, Hspawns in Hpool.
  rewrite Ebuf, app_nil_r in Hchan.
  by repeat split.
Qed.




(** With room for every scalar, as [createMatAndMultiply] allocates it, no
    cell task ever waits at its send. *)
Lemma invariant_send_has_room c k :
  invariant mat1 mat2 m p capacity c ->
  (m * p <= capacity)%nat -> (k < length (pool c))%nat ->
  exists c', stepTask mat1 mat2 k c = Done c'.
Proof.
  intros Hinv Hcapacity Hk.
  destruct (lookup_lt_is_Some_2 (pool c) k Hk) as [[i j] Hij].
  destruct (invariant_pool_in_grid c k i j Hinv Hij) as [Hi Hj].
  unfold stepTask. rewrite Hij, dotProduct_in_grid by done.
  destruct Hinv as [Hb Hspawns Hpool Hchan Hrecvs Hsum Hcap].
  pose proof (Permutation_length Hpool) as Hlen1.
  pose proof (f_equal length Hchan) as Hlen2.
  rewrite Hspawns, length_take, length_grid, length_app in Hlen1.
  rewrite length_fmap, length_app in Hlen2.
  destruct (Nat.ltb_spec (length (buf (sumCh c))) (cap (sumCh c)));
    [by eexists|lia].
Qed.

End MultiplierFacts.

(** * [matrixMultiply] as a whole *)

Section MultiplierTheorems.

Context {F : Type} `{Scalar F}.

Implicit Types (ch : chan F) (tr : list (event F)) (sched : list actor).


(** [matrixMultiply] reads the number of columns off the first row of
    [mat2], and returns what the run leaves when the main goroutine has
    returned. *)
Lemma matrixMultiply_Done (mat1 mat2 : matrix F) n p ch sched (s : F) tr :
  rectangular mat2 n p ->
  matrixMultiply mat1 mat2 ch sched = Done (s, tr) ->
  (0 < n)%nat
  /\ exists c,
      run mat1 mat2 (length mat1) p sched (start ch) = Done c
      /\ pc c = Returned /\ s = sum c /\ tr = log c.
Proof.
  intros [Hlen Hrows]. unfold matrixMultiply.
  destruct mat2 as [|row0 rest]; [discriminate|].
  apply Forall_cons in Hrows as [Hp _]. subst p. simpl.
  destruct (run mat1 (row0 :: rest) (length mat1) (length row0) sched
              (start ch)) as [c| |] eqn:Hrun; simpl; [|discriminate..].
  destruct (pc c) eqn:Epc; try discriminate.
  intros [= <- <-]. split; [simpl in Hlen; lia|by exists c].
Qed.


(** When [matrixMultiply] returns, the run has ended in a configuration
    that satisfies the invariant, with the main goroutine returned. *)
Lemma matrixMultiply_invariant
    (mat1 mat2 : matrix F) m n p ch sched (s : F) tr :
  rectangular mat1 m n -> rectangular mat2 n p -> buf ch = [] ->
  matrixMultiply mat1 mat2 ch sched = Done (s, tr) ->
  exists c,
    invariant mat1 mat2 m p (cap ch) c
    /\ pc c = Returned /\ s = sum c /\ tr = log c.
Proof.
  intros H1 H2 Hbuf Hmul.
  destruct (matrixMultiply_Done _ _ _ _ _ _ _ _ H2 Hmul)
    as (Hn & c & Hrun & Epc & -> & ->).
  destruct H1 as [Hm Hrows1]. rewrite Hm in Hrun.
  pose proof (run_invariant mat1 mat2 m n p (cap ch) (conj Hm Hrows1) H2
                sched (start ch)
                (invariant_start mat1 mat2 m p (cap ch) ch Hbuf eq_refl))
    as Hinv.
  rewrite Hrun in Hinv. destruct Hinv as [Hinv _]. by exists c.
Qed.

(** Whenever [matrixMultiply] returns, on rectangular A (m rows of n) and B
    (n rows of p) and an empty channel: one task was spawned per output
    coordinate, in the order of the loops; each of them enqueued its scalar
    once; and m * p scalars were drained, those the tasks enqueued, in the
    order of the sends. *)
Theorem matrixMultiply_spawns_sends_drains
    (mat1 mat2 : matrix F) m n p ch sched (s : F) tr :
  rectangular mat1 m n -> rectangular mat2 n p -> buf ch = [] ->
  matrixMultiply mat1 mat2 ch sched = Done (s, tr) ->
  spawns tr = grid m p
  /\ sends tr ≡ₚ grid m p
  /\ recvs tr = cell mat1 mat2 <$> sends tr
  /\ length (spawns tr) = (m * p)%nat
  /\ length (sends tr) = (m * p)%nat
  /\ length (recvs tr) = (m * p)%nat.
Proof.
  intros H1 H2 Hbuf Hmul.
  destruct (matrixMultiply_invariant _ _ _ _ _ _ _ _ _ H1 H2 Hbuf Hmul)
    as (c & Hinv & Epc & -> & ->).
  destruct (invariant_Returned mat1 mat2 m p (cap ch) c Hinv Epc)
    as (Hspawns & Hsends & Hrecvs & _ & _).
  repeat split; try done.
  - by rewrite Hspawns, (length_grid m p).
  - by rewrite Hsends, (length_grid m p).
  - by rewrite Hrecvs, length_fmap, Hsends, (length_grid m p).
Qed.

(** In exact arithmetic the sum of a list does not depend on its order. *)
Lemma fsum_Permutation `{!ExactArith F} (l k : list F) :
  l ≡ₚ k -> fsum l = fsum k.
Proof.
  induction 1 as [|x l k _ IH|x y l|l k k' _ IH1 _ IH2]; simpl.
  - done.
  - by rewrite IH.
  - rewrite !fadd_assoc. by rewrite (fadd_comm y x).
  - by rewrite IH1.
Qed.

Lemma fsum_scaled `{!ExactArith F} {A} (a : F) (f : A -> F) (l : list A) :
  fsum ((fun x => fmul a (f x)) <$> l) = fmul a (fsum (f <$> l)).
Proof.
  induction l as [|x l IH].
  - simpl. by rewrite fmul_0_r.
  - rewrite !fmap_cons.
    change (fsum (?y :: ?k)) with (fadd y (fsum k)).
    by rewrite IH, fmul_add_distr_l.
Qed.

(** Whenever [matrixMultiply] returns, the value is the scalars drained,
    added in the order of their arrival; these are the scalars of the m * p
    cells, each once; and in exact arithmetic the value is 100 times the sum
    over all output coordinates of the dot product of the row of A and the
    column of B. *)
Theorem matrixMultiply_returns_the_sum_of_the_cells
    (mat1 mat2 : matrix F) m n p ch sched (s : F) tr :
  rectangular mat1 m n -> rectangular mat2 n p -> buf ch = [] ->
  matrixMultiply mat1 mat2 ch sched = Done (s, tr) ->
  s = foldl fadd fzero (recvs tr)
  /\ recvs tr ≡ₚ cell mat1 mat2 <$> grid m p
  /\ (ExactArith F ->
      s = fmul (fnat 100) (fsum (dotAt mat1 mat2 <$> grid m p))).
Proof.
  intros H1 H2 Hbuf Hmul.
  destruct (matrixMultiply_invariant _ _ _ _ _ _ _ _ _ H1 H2 Hbuf Hmul)
    as (c & Hinv & Epc & -> & ->).
  destruct (invariant_Returned mat1 mat2 m p (cap ch) c Hinv Epc)
    as (_ & Hsends & Hrecvs & _ & _).
  assert (recvs (log c) ≡ₚ cell mat1 mat2 <$> grid m p) as Hperm
    by (by rewrite Hrecvs, Hsends).
  split; [apply (inv_sum _ _ _ _ _ _ Hinv)|]. split; [done|].
  intros Hexact. rewrite (inv_sum _ _ _ _ _ _ Hinv).
  rewrite foldl_fadd_fsum, fadd_0_l, (fsum_Permutation _ _ Hperm).
  rewrite <- fsum_scaled. f_equal. apply list_fmap_ext.
  intros _ [i j] _. apply accumulated_exact.
Qed.




(** With a buffer of m * p slots, as [createMatAndMultiply] allocates it,
    no cell task ever waits at its send: in every configuration a run
    reaches, each waiting task can take its step. *)
Theorem cell_tasks_never_wait
    (mat1 mat2 : matrix F) m n p ch sched (c : config F) k :
  rectangular mat1 m n -> rectangular mat2 n p ->
  buf ch = [] -> (m * p <= cap ch)%nat ->
  run mat1 mat2 m p sched (start ch) = Done c ->
  (k < length (pool c))%nat ->
  exists c', step mat1 mat2 m p (Task k) c = Done c'.
Proof.
  intros H1 H2 Hbuf Hcap Hrun Hk.
  pose proof (run_invariant mat1 mat2 m n p (cap ch) H1 H2 sched (start ch)
                (invariant_start mat1 mat2 m p (cap ch) ch Hbuf eq_refl))
    as Hinv.
  rewrite Hrun in Hinv. destruct Hinv as [Hinv _].
  by apply (invariant_send_has_room mat1 mat2 m n p (cap ch)).
Qed.

End MultiplierTheorems.

(** * More on the validator *)

Section ValidatorCases.

Implicit Types (request : Request) (matSizes : int2x2).

Ltac bind_done :=
  repeat (change (?k' ≫= Done ?x') with (k' x') at 1; cbv beta iota);
  repeat match goal with
         | |- context [mbind ?k (Done ?x)] =>
             change (mbind k (Done x)) with (k x); cbv beta iota
         end.

Lemma fieldDenotes_Next request matSizes matID matName (size : int2) :
  (matID < 2)%nat ->
  fieldDenotes request matName size ->
  processField request matSizes matID matName
  = Done (Next (withSize (withSize matSizes matID 0 (fst size))
                  matID 1 (snd size))).
Proof.
  intros HmatID (s & more & t0 & t1 & Hf & Htok & H0 & H1).
  assert (s <> "") as Hs by (intros ->; discriminate).
  rewrite (processField_tokens _ _ _ _ _ _ Hf Hs), Htok. simpl.
  rewrite H0. simpl. rewrite setSize_in_range by lia. simpl.
  rewrite H1. simpl. rewrite setSize_in_range by lia. reflexivity.
Qed.

Lemma processField_arity request matSizes matID matName s more :
  Form request !! matName = Some (s :: more) ->
  (length (sizeTokens s) < 2)%nat ->
  processField request matSizes matID matName
  = Done (Return (matSizes, arityMessage s, false)).
Proof.
  intros Hf Hlen. destruct (decide (s = "")) as [->|Hs].
  - by rewrite (processField_empty _ _ _ _ _ Hf).
  - rewrite (processField_tokens _ _ _ _ _ _ Hf Hs).
    destruct (Nat.ltb_spec (length (sizeTokens s)) 2) as [_|?]; [|lia].
    by destruct s.
Qed.

Lemma processField_parse_error request matSizes matID matName
    pre bad post :
  (matID < 2)%nat ->
  fieldTokens request matName (pre ++ bad :: post) ->
  (2 <= length (pre ++ bad :: post))%nat -> (length pre <= 2)%nat ->
  forallb isInt pre = true -> strconv.Atoi bad = None ->
  exists matSizes',
    processField request matSizes matID matName
    = Done (Return (matSizes', bad +:+ " is an invalid input", false)).
Proof.
  intros HmatID (s & more & Hf & Htok) Hlen Hpre Hints Hbad.
  assert (s <> "") as Hs.
  { intros ->. rewrite sizeTokens_empty in Htok. by destruct pre. }
  rewrite (processField_tokens _ _ _ _ _ _ Hf Hs), Htok.
  destruct (Nat.ltb_spec (length (pre ++ bad :: post)) 2) as [?|_]; [lia|].
  by apply storeSizes_parse_error.
Qed.

Lemma processRequest_ok request matSizes (message : string) :
  processRequest request = Done (matSizes, message, true) ->
  message = ""
  /\ fieldDenotes request "matASize" (fst matSizes)
  /\ fieldDenotes request "matBSize" (snd matSizes).
Proof.
  rewrite processRequest_fieldA. intros Hrun.
  destruct (processField request (0, 0, (0, 0)) 0 "matASize")
    as [[mA|rA]| |] eqn:HA; simpl in Hrun; try discriminate.
  2: { injection Hrun as ->.
       apply processField_Return in HA as [? [? ?]]. discriminate. }
  destruct (processField request mA 1 "matBSize")
    as [[mB|rB]| |] eqn:HB; simpl in Hrun; try discriminate.
  2: { injection Hrun as ->.
       apply processField_Return in HB as [? [? ?]]. discriminate. }
  injection Hrun as -> <-.
  apply processField_Next in HA
    as (a & moreA & tA0 & tA1 & vA0 & vA1 & HfA & HtA & HA0 & HA1 & ->);
    [|lia].
  apply processField_Next in HB
    as (b & moreB & tB0 & tB1 & vB0 & vB1 & HfB & HtB & HB0 & HB1 & ->);
    [|lia].
  simpl. split; [done|].
  split; [by exists a, moreA, tA0, tA1|by exists b, moreB, tB0, tB1].
Qed.

(** The validator succeeds exactly on two fields of two integers each, and
    then returns those integers with the empty message. *)
Theorem processRequest_succeeds_iff request matSizes :
  processRequest request = Done (matSizes, "", true)
  <-> fieldDenotes request "matASize" (fst matSizes)
      /\ fieldDenotes request "matBSize" (snd matSizes).
Proof.
  split.
  - intros Hrun. by destruct (processRequest_ok _ _ _ Hrun) as (_ & HA & HB).
  - intros [HA HB]. rewrite processRequest_fieldA.
    rewrite (fieldDenotes_Next _ _ 0 _ _ ltac:(lia) HA). bind_done.
    rewrite (fieldDenotes_Next _ _ 1 _ _ ltac:(lia) HB). bind_done.
    by destruct matSizes as [[a0 a1] [b0 b1]].
Qed.

(** A field that is present with an empty first value, or whose first value
    splits into fewer than two tokens, yields the arity error result: for
    field A at once, for field B when field A holds two integers.  The
    sizes returned with it are those stored so far. *)
Theorem processRequest_arity_error request s more (sizeA : int2) :
  (length (sizeTokens s) < 2)%nat ->
  (Form request !! "matASize" = Some (s :: more) /\ sizeA = (0, 0))
  \/ (fieldDenotes request "matASize" sizeA
      /\ Form request !! "matBSize" = Some (s :: more)) ->
  processRequest request = Done ((sizeA, (0, 0)), arityMessage s, false).
Proof.
  intros Hlen [[Hf ->]|[HA Hf]]; rewrite processRequest_fieldA.
  - by rewrite (processField_arity _ _ _ _ _ _ Hf Hlen).
  - rewrite (fieldDenotes_Next _ _ 0 _ _ ltac:(lia) HA). bind_done.
    rewrite (processField_arity _ _ _ _ _ _ Hf Hlen). bind_done.
    by destruct sizeA.
Qed.

(** A token that is not an integer, preceded in its field by at most two
    tokens, all integers, yields the parse error result that names it: in
    field A, or in field B when field A holds two integers. *)
Theorem processRequest_parse_error request pre bad post (sizeA : int2) :
  (2 <= length (pre ++ bad :: post))%nat -> (length pre <= 2)%nat ->
  forallb isInt pre = true -> strconv.Atoi bad = None ->
  fieldTokens request "matASize" (pre ++ bad :: post)
  \/ (fieldDenotes request "matASize" sizeA
      /\ fieldTokens request "matBSize" (pre ++ bad :: post)) ->
  exists matSizes,
    processRequest request
    = Done (matSizes, bad +:+ " is an invalid input", false).
Proof.
  intros Hlen Hpre Hints Hbad [HA|[HA HB]]; rewrite processRequest_fieldA.
  - destruct (processField_parse_error request ((0, 0), (0, 0)) 0 _ _ _ _
                ltac:(lia) HA Hlen Hpre Hints Hbad) as [m ->].
    by exists m.
  - rewrite (fieldDenotes_Next _ _ 0 _ _ ltac:(lia) HA). bind_done.
    destruct (processField_parse_error request
                (withSize (withSize ((0, 0), (0, 0)) 0 0 (fst sizeA)) 0 1
                   (snd sizeA)) 1 _ _ _ _
                ltac:(lia) HB Hlen Hpre Hints Hbad) as [m ->].
    by exists m.
Qed.

(** Whatever [processRequest] returns with [ok = false] carries one of the
    two arity messages or names a token of the form that is not an integer;
    whatever it returns with [ok = true] carries the empty message. *)
Theorem processRequest_messages request matSizes (message : string)
    (ok : bool) :
  processRequest request = Done (matSizes, message, ok) ->
  if ok then message = ""
  else message = "2 numbers needed, 0 received"
       \/ message = "2 numbers needed, only 1 received"
       \/ exists matName tokens stringValue,
            (matName = "matASize" \/ matName = "matBSize")
            /\ fieldTokens request matName tokens
            /\ stringValue ∈ tokens
            /\ strconv.Atoi stringValue = None
            /\ message = stringValue +:+ " is an invalid input".
Proof.
  assert (forall matSizes0 matID matName r,
             (matName = "matASize" \/ matName = "matBSize") ->
             processField request matSizes0 matID matName = Done (Return r) ->
             exists m msg, r = (m, msg, false)
               /\ (msg = "2 numbers needed, 0 received"
                   \/ msg = "2 numbers needed, only 1 received"
                   \/ exists matName tokens stringValue,
                        (matName = "matASize" \/ matName = "matBSize")
                        /\ fieldTokens request matName tokens
                        /\ stringValue ∈ tokens
                        /\ strconv.Atoi stringValue = None
                        /\ msg = stringValue +:+ " is an invalid input"))
    as Hfield.
  { intros m0 matID matName r Hname. unfold processField, mapIndex.
    destruct (Form request !! matName) as [[|s more]|] eqn:Hf;
      try discriminate.
    destruct (true && _); [|intros [= <-]; eauto 6].
    destruct (_ <? _)%nat; [intros [= <-]; eauto 6|].
    intros Hrun.
    apply storeSizes_Return in Hrun as (m & t & Hin & Hbad & ->).
    exists m, (t +:+ " is an invalid input"). split; [done|].
    right. right. exists matName, (sizeTokens s), t.
    repeat split; try done. by exists s, more. }
  rewrite processRequest_fieldA.
  destruct (processField request (0, 0, (0, 0)) 0 "matASize")
    as [[mA|rA]| |] eqn:HA; simpl; try discriminate.
  2: { intros [= ->]. apply Hfield in HA as (m & msg & [= -> -> ->] & Hmsg);
         [done|by left]. }
  destruct (processField request mA 1 "matBSize")
    as [[mB|rB]| |] eqn:HB; simpl; try discriminate.
  2: { intros [= ->]. apply Hfield in HB as (m & msg & [= -> -> ->] & Hmsg);
         [done|by right]. }
  by intros [= <- <- <-].
Qed.

End ValidatorCases.

(** * The handler *)

Section HandlerFacts.

Context {F : Type} `{Scalar F}.

Implicit Types (request : Request) (w : World F) (tr : list (event F)).


(** A form on which [processRequest] returns at all holds field A, so it is
    not the empty form of a first visit. *)
Lemma processRequest_Done_nonempty request (r : validation) :
  processRequest request = Done r -> size (Form request) <> 0%nat.
Proof.
  rewrite processRequest_fieldA. intros Hrun Hsize.
  apply map_size_empty_inv in Hsize.
  rewrite (processField_absent request) in Hrun by (by rewrite Hsize).
  discriminate.
Qed.


(** The handler answers a validation error (an arity error, a parse error,
    or sizes that cannot be multiplied) with the page, the form and the
    error message, and with nothing else: no matrix is created, no channel
    is made, no task is spawned. *)
Theorem MatrixHandler_reports_validation_error
    request w (matSizes : int2x2) (message : string) :
  ParseFormErr request = None ->
  processRequest request = Done (matSizes, message, false)
  \/ (exists m, processRequest request = Done (matSizes, m, true)
                /\ canMultiply (fst matSizes) (snd matSizes)
                   = (false, message)) ->
  MatrixHandler request w
  = Done [EvWrite pageTop; EvWrite form; EvWrite (anError message);
          EvWrite pageBottom]
  /\ existsb computes
       ([EvWrite pageTop; EvWrite form; EvWrite (anError message);
         EvWrite pageBottom] : list (event F)) = false.
Proof.
  intros Hparse Hfail. split; [|done]. unfold MatrixHandler. rewrite Hparse.
  assert (size (Form request) <> 0%nat) as Hsize.
  { destruct Hfail as [Hrun|(m & Hrun & _)];
      by eapply processRequest_Done_nonempty. }
  destruct (Nat.eqb_spec (size (Form request)) 0) as [?|_]; [done|].
  destruct Hfail as [Hrun|(m & Hrun & Hcan)]; rewrite Hrun; simpl.
  - reflexivity.
  - by rewrite Hcan.
Qed.

(** Whenever the handler's answer shows a matrix created, a channel made, a
    task spawned or a scalar sent or drained, the form was parsed, the
    validator returned sizes with success, and the columns of A equal the
    rows of B. *)
Theorem MatrixHandler_computes_only_after_validation request w tr e :
  MatrixHandler request w = Done tr ->
  e ∈ tr -> computes e = true ->
  ParseFormErr request = None
  /\ exists matSizes,
      processRequest request = Done (matSizes, "", true)
      /\ snd (fst matSizes) = fst (snd matSizes).
Proof.
  unfold MatrixHandler. intros Hrun Hin He.
  destruct (ParseFormErr request) as [err|] eqn:Hparse.
  { simpl in Hrun. injection Hrun as <-.
    repeat (apply elem_of_cons in Hin as [->|Hin]; [discriminate|]).
    by apply elem_of_nil in Hin. }
  destruct (size (Form request) =? 0)%nat.
  { simpl in Hrun. injection Hrun as <-.
    repeat (apply elem_of_cons in Hin as [->|Hin]; [discriminate|]).
    by apply elem_of_nil in Hin. }
  destruct (processRequest request) as [[[matSizes message] ok]| |] eqn:Hreq;
    [|discriminate..].
  change (Done ?x ≫= ?k) with (k x) in Hrun at 1. cbv beta iota in Hrun.
  destruct ok.
  2: { simpl in Hrun. injection Hrun as <-.
       repeat (apply elem_of_cons in Hin as [->|Hin]; [discriminate|]).
       by apply elem_of_nil in Hin. }
  destruct (processRequest_ok _ _ _ Hreq) as (-> & _ & _). split; [done|]. exists matSizes. split; [done|].
  unfold canMultiply in Hrun.
  destruct (Z.eqb_spec (snd (fst matSizes)) (fst (snd matSizes)))
    as [Heq|Hne]; [done|].
  simpl in Hrun. injection Hrun as <-.
  repeat (apply elem_of_cons in Hin as [->|Hin]; [discriminate|]).
  by apply elem_of_nil in Hin.
Qed.







End HandlerFacts.

(** * The wiki: paths and titles *)

Section WikiPaths.

Implicit Types (path verb title s t : string).

Lemma string_app_cons c s t : String c s +:+ t = String c (s +:+ t).
Proof. reflexivity. Qed.

Lemma string_app_nil_l s : "" +:+ s = s.
Proof. reflexivity. Qed.

Lemma string_app_assoc s t u : (s +:+ t) +:+ u = s +:+ (t +:+ u).
Proof.
  induction s as [|c s IH]; [done|].
  rewrite !string_app_cons. by f_equal.
Qed.

Lemma string_app_nil_r s : s +:+ "" = s.
Proof.
  induction s as [|c s IH]; [done|]. rewrite string_app_cons. by f_equal.
Qed.

Lemma string_length_app s t :
  String.length (s +:+ t) = (String.length s + String.length t)%nat.
Proof.
  induction s as [|c s IH]; [done|].
  rewrite string_app_cons. simpl. by f_equal.
Qed.

Lemma string_app_inj_r s t u : s +:+ u = t +:+ u -> s = t.
Proof.
  revert t. induction s as [|c s IH]; intros [|d t] Heq.
  - done.
  - apply (f_equal String.length) in Heq.
    rewrite !string_length_app in Heq. simpl in Heq. lia.
  - apply (f_equal String.length) in Heq.
    rewrite !string_length_app in Heq. simpl in Heq. lia.
  - rewrite !string_app_cons in Heq. injection Heq as -> Heq.
    f_equal. by apply IH.
Qed.

Lemma stripPrefix_app s t : wiki.stripPrefix s (s +:+ t) = Some t.
Proof.
  induction s as [|c s IH]; [by destruct t|].
  rewrite string_app_cons. simpl. by rewrite Ascii.eqb_refl.
Qed.

Lemma stripPrefix_Some s path t :
  wiki.stripPrefix s path = Some t -> path = s +:+ t.
Proof.
  revert path. induction s as [|c s IH]; intros path; simpl.
  - by intros [= ->].
  - destruct path as [|d path]; [done|].
    destruct (Ascii.eqb_spec c d) as [->|]; [|done].
    intros Hs. by rewrite (IH _ Hs).
Qed.

Lemma matchVerb_Some path verb m :
  wiki.matchVerb path verb = Some m ->
  exists title,
    title <> "" /\ wiki.allAlnum title = true
    /\ path = "/" +:+ verb +:+ "/" +:+ title /\ m = [path; verb; title].
Proof.
  unfold wiki.matchVerb.
  destruct (wiki.stripPrefix _ path) as [title|] eqn:Hs; [|done].
  destruct (Nat.ltb_spec 0 (String.length title)) as [Hlen|]; [|done].
  destruct (wiki.allAlnum title) eqn:Hal; [|done].
  simpl. intros [= <-]. exists title.
  split; [intros ->; simpl in Hlen; lia|]. split; [done|]. split; [|done].
  apply stripPrefix_Some in Hs. by rewrite Hs, !string_app_assoc.
Qed.

Lemma matchVerb_intro verb title :
  title <> "" -> wiki.allAlnum title = true ->
  wiki.matchVerb ("/" +:+ verb +:+ "/" +:+ title) verb
  = Some ["/" +:+ verb +:+ "/" +:+ title; verb; title].
Proof.
  intros Hne Hal. unfold wiki.matchVerb.
  rewrite <- (string_app_assoc verb "/" title).
  rewrite <- (string_app_assoc "/" (verb +:+ "/") title).
  rewrite stripPrefix_app, Hal.
  destruct title; [done|]. reflexivity.
Qed.

Lemma FindStringSubmatch_Some path (m : list string) :
  wiki.FindStringSubmatch path = Some m ->
  exists verb title,
    (verb = "edit" \/ verb = "save" \/ verb = "view")
    /\ title <> "" /\ wiki.allAlnum title = true
    /\ path = "/" +:+ verb +:+ "/" +:+ title
    /\ m = [path; verb; title].
Proof.
  unfold wiki.FindStringSubmatch.
  destruct (wiki.matchVerb path "edit") as [m1|] eqn:H1.
  { intros [= <-]. apply matchVerb_Some in H1 as (title & ? & ? & ? & ?).
    exists "edit", title. auto. }
  destruct (wiki.matchVerb path "save") as [m2|] eqn:H2.
  { intros [= <-]. apply matchVerb_Some in H2 as (title & ? & ? & ? & ?).
    exists "save", title. auto 6. }
  intros H3. apply matchVerb_Some in H3 as (title & ? & ? & ? & ?).
  exists "view", title. auto 6.
Qed.

Lemma FindStringSubmatch_plain_title verb title :
  (verb = "edit" \/ verb = "save" \/ verb = "view") ->
  title <> "" -> wiki.allAlnum title = true ->
  wiki.FindStringSubmatch ("/" +:+ verb +:+ "/" +:+ title)
  = Some ["/" +:+ verb +:+ "/" +:+ title; verb; title].
Proof.
  intros Hverb Hne Hal. unfold wiki.FindStringSubmatch.
  destruct Hverb as [ -> | [ -> | -> ] ].
  - by rewrite matchVerb_intro.
  - rewrite (matchVerb_intro "save") by done. reflexivity.
  - rewrite (matchVerb_intro "view") by done. reflexivity.
Qed.

(** [validPath] matches exactly the paths [/edit/T], [/save/T] and
    [/view/T] with [T] a non-empty run of ASCII letters and digits, and the
    match holds the path, the verb and [T]. *)
Theorem validPath_matches_iff path (m : list string) :
  wiki.FindStringSubmatch path = Some m
  <-> exists verb title,
        (verb = "edit" \/ verb = "save" \/ verb = "view")
        /\ title <> "" /\ wiki.allAlnum title = true
        /\ path = "/" +:+ verb +:+ "/" +:+ title
        /\ m = [path; verb; title].
Proof.
  split; [apply FindStringSubmatch_Some|].
  intros (verb & title & Hverb & Hne & Hal & -> & ->).
  by apply FindStringSubmatch_plain_title.
Qed.

(** The closure of [makeHandler] never panics; it answers [NotFound] to
    every path that [validPath] does not match, and hands every other path
    [/verb/T] to the handler with the title [T], which is not empty and
    holds ASCII letters and digits only. *)
Theorem makeHandler_serves_plain_titles {R} (fn : string -> R) path :
  (wiki.FindStringSubmatch path = None
   /\ wiki.makeHandler fn path = Done (inl wiki.NotFound))
  \/ (exists verb title,
        (verb = "edit" \/ verb = "save" \/ verb = "view")
        /\ title <> "" /\ wiki.allAlnum title = true
        /\ path = "/" +:+ verb +:+ "/" +:+ title
        /\ wiki.makeHandler fn path = Done (inr (fn title))).
Proof.
  unfold wiki.makeHandler.
  destruct (wiki.FindStringSubmatch path) as [m|] eqn:Hm; [right|by left].
  apply FindStringSubmatch_Some in Hm
    as (verb & title & Hverb & Hne & Hal & Hpath & ->).
  exists verb, title. by repeat split.
Qed.

Lemma makeHandler_plain_title {R} (fn : string -> R) verb title :
  (verb = "edit" \/ verb = "save" \/ verb = "view") ->
  title <> "" -> wiki.allAlnum title = true ->
  wiki.makeHandler fn ("/" +:+ verb +:+ "/" +:+ title) = Done (inr (fn title)).
Proof.
  intros Hverb Hne Hal. unfold wiki.makeHandler.
  by rewrite FindStringSubmatch_plain_title.
Qed.

End WikiPaths.

(** * The wiki: pages and known titles *)

Section WikiState.

#[local] Set Warnings "-clear-no-such-hyp".

Variable compiles : string -> bool.

Implicit Types (title body t : string) (st : wiki.State)
  (fs : gmap string string) (ts : list string).

Lemma pagePath_inj title t :
  wiki.Join wiki.packageDir "data" (title +:+ ".txt")
  = wiki.Join wiki.packageDir "data" (t +:+ ".txt") ->
  title = t.
Proof.
  unfold wiki.Join. intros Heq.
  do 4 apply String.app_inj in Heq.
  by apply string_app_inj_r in Heq.
Qed.

(** A page saved is the page loaded back. *)
Lemma load_save title body fs :
  wiki.load title
    (fst (wiki.save {| wiki.Title := title; wiki.Body := body |} fs None))
  = Some {| wiki.Title := title; wiki.Body := body |}.
Proof.
  unfold wiki.load, wiki.save, wiki.ReadFile, wiki.WriteFile. simpl.
  by rewrite lookup_insert_eq.
Qed.

Lemma load_save_other title body t fs :
  title <> t ->
  wiki.load t
    (fst (wiki.save {| wiki.Title := title; wiki.Body := body |} fs None))
  = wiki.load t fs.
Proof.
  intros Hne. unfold wiki.load, wiki.save, wiki.ReadFile, wiki.WriteFile.
  simpl. rewrite lookup_insert_ne; [done|].
  intros Heq. by apply pagePath_inj in Heq.
Qed.

Lemma concat_bar_snoc ts t :
  ts <> [] ->
  String.concat "|" (ts ++ [t]) = String.concat "|" ts +:+ "|" +:+ t.
Proof.
  induction ts as [|x [|y ts] IH]; intros Hne; [done|done|].
  specialize (IH ltac:(done)).
  change (String.concat "|" ((x :: y :: ts) ++ [t]))
    with (x +:+ "|" +:+ String.concat "|" ((y :: ts) ++ [t])).
  change (String.concat "|" (x :: y :: ts))
    with (x +:+ "|" +:+ String.concat "|" (y :: ts)).
  rewrite IH. by rewrite !string_app_assoc.
Qed.

Lemma substring_app_length (s u : string) :
  substring 0 (String.length s) (s +:+ u) = s.
Proof.
  induction s as [|c s IH]; [by destruct u|].
  rewrite string_app_cons. simpl. by f_equal.
Qed.

Lemma initLoop_pattern names (pattern : string) (titles : gmap string bool) :
  names <> [] ->
  fst (wiki.initLoop names pattern titles)
  = pattern +:+ String.concat "|" (wiki.beforeDot <$> names) +:+ "|".
Proof.
  revert pattern titles.
  induction names as [|n [|n' names] IH]; intros pattern titles Hne;
    [done|done|].
  specialize (IH (pattern +:+ wiki.beforeDot n +:+ "|")
                (<[wiki.beforeDot n := true]> titles) ltac:(done)).
  change (wiki.initLoop (n :: n' :: names) pattern titles)
    with (wiki.initLoop (n' :: names) (pattern +:+ wiki.beforeDot n +:+ "|")
            (<[wiki.beforeDot n := true]> titles)).
  rewrite IH.
  change (String.concat "|" (wiki.beforeDot <$> (n :: n' :: names)))
    with (wiki.beforeDot n +:+ "|"
          +:+ String.concat "|" (wiki.beforeDot <$> (n' :: names))).
  by rewrite !string_app_assoc.
Qed.

Lemma initLoop_titles names (pattern : string) (titles : gmap string bool)
    t (b : bool) :
  snd (wiki.initLoop names pattern titles) !! t = Some b
  <-> (b = true /\ (t ∈ (wiki.beforeDot <$> names)))
      \/ ((t ∉ (wiki.beforeDot <$> names)) /\ titles !! t = Some b).
Proof.
  revert pattern titles.
  induction names as [|n names IH]; intros pattern titles.
  - simpl. split; [intros Ht; right; split; [apply not_elem_of_nil|done]|].
    intros [[_ Hin]|[_ Ht]]; [by apply elem_of_nil in Hin|done].
  - change (wiki.initLoop (n :: names) pattern titles)
      with (wiki.initLoop names (pattern +:+ wiki.beforeDot n +:+ "|")
              (<[wiki.beforeDot n := true]> titles)).
    rewrite IH, fmap_cons. rewrite !elem_of_cons.
    destruct (decide (t = wiki.beforeDot n)) as [->|Hne].
    + rewrite lookup_insert_eq. split.
      * intros [[-> Hin]|[Hnin [= <-]]]; left; auto.
      * intros [[-> _]|[Hnin _]]; [|by destruct Hnin; left].
        destruct (decide (wiki.beforeDot n ∈ wiki.beforeDot <$> names));
          [left|right]; auto.
    + rewrite lookup_insert_ne by done. split.
      * intros [[-> Hin]|[Hnin Ht]]; [left; auto|right].
        split; [|done]. by intros [?|?].
      * intros [[-> [?|Hin]]|[Hnin Ht]]; [done|left; auto|right].
        split; [|done]. intros Hin. apply Hnin. by right.
Qed.

(** [init] ends in [log.Fatal] when the directory cannot be read and in a
    panic, a slice bound out of range, when the directory is empty;
    otherwise the titles are the file names up to their first dot, the
    pattern is these titles joined by bars, and [init] starts the wiki with
    the pattern and the title map in step when [MustCompile] accepts the
    pattern in parentheses, and panics when it does not. *)
Theorem init_outcomes fs (names : list string) :
  wiki.init compiles fs None = wiki.Fatal
  /\ wiki.init compiles fs (Some []) = wiki.SliceBoundsOutOfRange (-1)
  /\ (names <> [] ->
      let pattern := String.concat "|" (wiki.beforeDot <$> names) in
      let expr := "(" +:+ pattern +:+ ")" in
      if compiles expr then
        exists st,
          wiki.init compiles fs (Some names) = wiki.Started st
          /\ wiki.inStep (wiki.beforeDot <$> names) st
          /\ wiki.availableTitlesRegExp st = expr
          /\ wiki.files st = fs
      else wiki.init compiles fs (Some names) = wiki.InitMustCompilePanic expr).
Proof.
  split; [done|]. split; [done|]. intros Hne pattern expr.
  unfold wiki.init.
  pose proof (initLoop_pattern names "" ∅ Hne) as Hpat.
  pose proof (initLoop_titles names "" ∅) as Htitles.
  destruct (wiki.initLoop names "" ∅) as [p titles]. simpl in Hpat, Htitles.
  rewrite string_app_nil_l in Hpat. fold pattern in Hpat. subst p.
  rewrite string_length_app. simpl.
  destruct (Nat.eqb_spec (String.length pattern + 1) 0) as [?|_]; [lia|].
  replace (String.length pattern + 1 - 1)%nat with (String.length pattern)
    by lia.
  rewrite substring_app_length. fold expr.
  destruct (compiles expr); [|done].
  eexists. split; [done|]. split; [|done].
  split; [by destruct names|]. split; [done|]. simpl.
  intros t b. rewrite Htitles. rewrite lookup_empty. naive_solver.
Qed.

(** [saveHandler] keeps the pattern and the title map in step.  When the
    write fails it answers the error with status 500 and leaves both as
    they were.  When the write succeeds the page is on disk, the title is
    registered if it was not known, exactly once, and the answer is the
    redirect to the view of the page, unless [MustCompile] panics on the
    grown pattern; the compiled expression is the pattern in parentheses
    whenever there was no panic. *)
Theorem saveHandler_keeps_titles_in_step
    title body (failure : option (string * gmap string string)) st ts :
  wiki.inStep ts st ->
  wiki.availableTitlesRegExp st
  = "(" +:+ wiki.availableTitlesPattern st +:+ ")" ->
  match failure with
  | Some (err, fsAfter) =>
      wiki.saveHandler compiles title body failure st
      = (wiki.Error err wiki.StatusInternalServerError,
         {| wiki.files := fsAfter;
            wiki.availableTitlesPattern := wiki.availableTitlesPattern st;
            wiki.availableTitlesRegExp := wiki.availableTitlesRegExp st;
            wiki.availableWikiTitles := wiki.availableWikiTitles st |})
  | None =>
      exists resp st',
        wiki.saveHandler compiles title body None st = (resp, st')
        /\ wiki.inStep (wiki.registered ts title) st'
        /\ wiki.load title (wiki.files st')
           = Some {| wiki.Title := title; wiki.Body := body |}
        /\ (resp = wiki.Redirect ("/view/" +:+ title) wiki.StatusFound
            /\ wiki.availableTitlesRegExp st'
               = "(" +:+ wiki.availableTitlesPattern st' +:+ ")"
            \/ resp = wiki.MustCompilePanic
                        ("(" +:+ wiki.availableTitlesPattern st' +:+ ")")
               /\ title ∉ ts)
  end.
Proof.
  intros (Hne & Hpat & Hmap) Hre.
  destruct failure as [[err fsAfter]|]; [done|].
  unfold wiki.saveHandler.
  pose proof (load_save title body (wiki.files st)) as Hload.
  destruct (wiki.save _ (wiki.files st) None) as [fs' err] eqn:Hsave.
  assert (err = None) as -> by (by injection Hsave as _ <-).
  simpl in Hload. cbn [wiki.availableWikiTitles].
  unfold wiki.registered.
  destruct (wiki.availableWikiTitles st !! title) as [b|] eqn:Hlook.
  - (* a known title *)
    apply Hmap in Hlook as [-> Hin]. simpl.
    rewrite bool_decide_true by done.
    eexists _, _. split; [done|].
    split; [exact (conj Hne (conj Hpat Hmap))|].
    split; [done|]. by left.
  - (* a new title *)
    assert (title ∉ ts) as Hnin.
    { intros Hin. assert (wiki.availableWikiTitles st !! title = Some true)
        as Hyes by (by apply Hmap). congruence. }
    simpl. rewrite bool_decide_false by done.
    unfold wiki.updateWikiTitlesRexEx. simpl.
    assert (wiki.inStep (ts ++ [title])
              {| wiki.files := fs';
                 wiki.availableTitlesPattern :=
                   wiki.availableTitlesPattern st +:+ "|" +:+ title;
                 wiki.availableTitlesRegExp := wiki.availableTitlesRegExp st;
                 wiki.availableWikiTitles :=
                   <[title := true]> (wiki.availableWikiTitles st) |})
      as Hstep.
    { split; [by destruct ts|]. split; simpl.
      - by rewrite concat_bar_snoc, Hpat.
      - intros t b. rewrite elem_of_app, list_elem_of_singleton.
        destruct (decide (t = title)) as [->|Hdiff].
        + rewrite lookup_insert_eq. naive_solver.
        + rewrite lookup_insert_ne by done. rewrite Hmap. naive_solver. }
    destruct (compiles _) eqn:Hcompiles.
    + eexists _, _. split; [done|]. split; [exact Hstep|].
      split; [done|]. by left.
    + eexists _, _. split; [done|]. split; [exact Hstep|].
      split; [done|]. by right.
Qed.

(** Saving a page leaves the pages of the other titles as they were.  The
    titles are runs of ASCII letters and digits, the only ones the handlers
    get: for these, two different paths never name one file. *)
Theorem saveHandler_leaves_other_pages title body t st :
  wiki.allAlnum title = true -> wiki.allAlnum t = true -> title <> t ->
  wiki.load t (wiki.files (snd (wiki.saveHandler compiles title body None st)))
  = wiki.load t (wiki.files st).
Proof.
  intros _ _ Hne. unfold wiki.saveHandler.
  pose proof (load_save_other title body t (wiki.files st) Hne) as Hload.
  destruct (wiki.save _ (wiki.files st) None) as [fs' err] eqn:Hsave.
  assert (err = None) as -> by (by injection Hsave as _ <-).
  simpl in Hload. cbn [wiki.availableWikiTitles].
  destruct (default false (wiki.availableWikiTitles st !! title)); [done|].
  unfold wiki.updateWikiTitlesRexEx. by destruct (compiles _).
Qed.

(** After a save that answers with its redirect, the path of the redirect
    is one [makeHandler] serves, and viewing it renders the page with the
    body just saved. *)
Theorem view_after_save_shows_the_body title body st url code st' :
  title <> "" -> wiki.allAlnum title = true ->
  wiki.saveHandler compiles title body None st
  = (wiki.Redirect url code, st') ->
  url = "/view/" +:+ title /\ code = wiki.StatusFound
  /\ wiki.makeHandler (fun t => wiki.viewHandler t st') url
     = Done (inr (wiki.RenderView "view.html" title body
                    (wiki.availableTitlesRegExp st'))).
Proof.
  intros Hne Hal Hsave.
  assert (wiki.load title (wiki.files st')
          = Some {| wiki.Title := title; wiki.Body := body |}
          /\ url = "/view/" +:+ title /\ code = wiki.StatusFound)
    as (Hload & -> & ->).
  { revert Hsave. unfold wiki.saveHandler.
    pose proof (load_save title body (wiki.files st)) as Hload.
    destruct (wiki.save _ (wiki.files st) None) as [fs' err] eqn:Hs.
    assert (err = None) as -> by (by injection Hs as _ <-).
    simpl in Hload. cbn [wiki.availableWikiTitles].
    destruct (default false (wiki.availableWikiTitles st !! title)).
    - by intros [= <- <- <-].
    - unfold wiki.updateWikiTitlesRexEx.
      destruct (compiles _); [|discriminate]. by intros [= <- <- <-]. }
  split; [done|]. split; [done|].
  rewrite (makeHandler_plain_title _ "view" title) by auto.
  unfold wiki.viewHandler. by rewrite Hload.
Qed.

(** Viewing a title that has no readable page answers with the redirect to
    its edit path, a path [makeHandler] serves, and editing it renders the
    edit form for an empty page of that title. *)
Theorem view_of_a_missing_page_leads_to_its_edit_form title st :
  title <> "" -> wiki.allAlnum title = true ->
  wiki.load title (wiki.files st) = None ->
  wiki.viewHandler title st
  = wiki.Redirect ("/edit/" +:+ title) wiki.StatusFound
  /\ wiki.makeHandler (fun t => wiki.editHandler t st) ("/edit/" +:+ title)
     = Done (inr (wiki.RenderPage "edit.html"
                    {| wiki.Title := title; wiki.Body := "" |})).
Proof.
  intros Hne Hal Hload. unfold wiki.viewHandler. rewrite Hload.
  split; [done|].
  rewrite (makeHandler_plain_title _ "edit" title) by auto.
  unfold wiki.editHandler. by rewrite Hload.
Qed.

End WikiState.

(** * The theorems at concrete inputs *)

Lemma matA_rectangular : rectangular matA 2 2.
Proof. split; [done|repeat constructor]. Qed.

Lemma matB_rectangular : rectangular matB 2 2.
Proof. split; [done|repeat constructor]. Qed.

Lemma matrixMultiply_22 :
  matrixMultiply matA matB (emptyChan 4) sched22 = Done (13400, trace22).
Proof. by vm_compute. Qed.

Lemma matrixMultiply_spawns_sends_drains_witness :
  rectangular matA 2 2 /\ rectangular matB 2 2
  /\ buf (emptyChan (F:=Z) 4) = []
  /\ matrixMultiply matA matB (emptyChan 4) sched22 = Done (13400, trace22)
  /\ spawns trace22 = grid 2 2
  /\ sends trace22 ≡ₚ grid 2 2
  /\ recvs trace22 = cell matA matB <$> sends trace22
  /\ length (spawns trace22) = (2 * 2)%nat
  /\ length (sends trace22) = (2 * 2)%nat
  /\ length (recvs trace22) = (2 * 2)%nat.
Proof.
  split; [exact matA_rectangular|]. split; [exact matB_rectangular|].
  split; [reflexivity|]. split; [exact matrixMultiply_22|].
  exact (matrixMultiply_spawns_sends_drains matA matB 2 2 2 (emptyChan 4)
           sched22 13400 trace22 matA_rectangular matB_rectangular eq_refl
           matrixMultiply_22).
Defined.

Lemma matrixMultiply_returns_the_sum_of_the_cells_witness :
  rectangular matA 2 2 /\ rectangular matB 2 2
  /\ buf (emptyChan (F:=Z) 4) = []
  /\ matrixMultiply matA matB (emptyChan 4) sched22 = Done (13400, trace22)
  /\ 13400 = foldl fadd fzero (recvs trace22)
  /\ recvs trace22 ≡ₚ cell matA matB <$> grid 2 2
  /\ (ExactArith Z ->
      13400 = fmul (fnat 100) (fsum (dotAt matA matB <$> grid 2 2))).
Proof.
  split; [exact matA_rectangular|]. split; [exact matB_rectangular|].
  split; [reflexivity|]. split; [exact matrixMultiply_22|].
  exact (matrixMultiply_returns_the_sum_of_the_cells matA matB 2 2 2
           (emptyChan 4) sched22 13400 trace22 matA_rectangular
           matB_rectangular eq_refl matrixMultiply_22).
Defined.


Lemma run_22_partial :
  run matA matB 2 2 sched22_partial (start (emptyChan 4))
  = Done {| pc := Draining 0 0;
            pool := [(0, 0); (0, 1); (1, 1)]%nat;
            sumCh := {| buf := [4300]; cap := 4 |};
            sum := 0;
            log := [EvSpawn 0 0; EvSpawn 0 1; EvSpawn 1 0; EvSpawn 1 1;
                    EvSend 1 0] |}.
Proof. by vm_compute. Qed.

Lemma cell_tasks_never_wait_witness :
  rectangular matA 2 2 /\ rectangular matB 2 2
  /\ buf (emptyChan (F:=Z) 4) = []
  /\ (2 * 2 <= cap (emptyChan (F:=Z) 4))%nat
  /\ exists c,
      run matA matB 2 2 sched22_partial (start (emptyChan 4)) = Done c
      /\ (2 < length (pool c))%nat
      /\ exists c', step matA matB 2 2 (Task 2) c = Done c'.
Proof.
  assert (2 * 2 <= cap (emptyChan (F:=Z) 4))%nat as Hcap by (simpl; lia).
  split; [exact matA_rectangular|]. split; [exact matB_rectangular|].
  split; [reflexivity|]. split; [exact Hcap|].
  eexists. split; [exact run_22_partial|]. split; [simpl; lia|].
  apply (cell_tasks_never_wait matA matB 2 2 2 (emptyChan 4) sched22_partial
           _ 2 matA_rectangular matB_rectangular eq_refl Hcap run_22_partial).
  simpl. lia.
Defined.

Lemma fieldDenotes_form2_A (a b t0 t1 : string) (v0 v1 : Z) :
  sizeTokens a = [t0; t1] ->
  strconv.Atoi t0 = Some v0 -> strconv.Atoi t1 = Some v1 ->
  fieldDenotes (form2 a b) "matASize" (v0, v1).
Proof. intros Ht H0 H1. by exists a, [], t0, t1. Qed.

Lemma processRequest_arity_error_witness :
  (length (sizeTokens "") < 2)%nat
  /\ fieldDenotes formEmptyB "matASize" (2, 3)
  /\ Form formEmptyB !! "matBSize" = Some ["" ]
  /\ processRequest formEmptyB
     = Done (((2, 3), (0, 0)), "2 numbers needed, 0 received", false).
Proof.
  assert (length (sizeTokens "") < 2)%nat as Hlen by (simpl; lia).
  assert (fieldDenotes formEmptyB "matASize" (2, 3)) as HA
    by (by apply (fieldDenotes_form2_A "2 3" "" "2" "3")).
  assert (Form formEmptyB !! "matBSize" = Some [""]) as HB by (by vm_compute).
  split; [exact Hlen|]. split; [exact HA|]. split; [exact HB|].
  exact (processRequest_arity_error formEmptyB "" [] (2, 3) Hlen
           (or_intror (conj HA HB))).
Defined.

Lemma processRequest_parse_error_witness :
  (2 <= length (["3"] ++ "x" :: []))%nat /\ (length ["3"] <= 2)%nat
  /\ forallb isInt ["3"] = true /\ strconv.Atoi "x" = None
  /\ fieldDenotes formBadToken "matASize" (2, 3)
  /\ fieldTokens formBadToken "matBSize" (["3"] ++ "x" :: [])
  /\ exists matSizes,
      processRequest formBadToken
      = Done (matSizes, "x" +:+ " is an invalid input", false).
Proof.
  assert (2 <= length (["3"] ++ "x" :: []))%nat as Hlen by (simpl; lia).
  assert (length ["3"] <= 2)%nat as Hpre by (simpl; lia).
  assert (fieldDenotes formBadToken "matASize" (2, 3)) as HA
    by (by apply (fieldDenotes_form2_A "2 3" "3 x" "2" "3")).
  assert (fieldTokens formBadToken "matBSize" (["3"] ++ "x" :: [])) as HB
    by (by exists "3 x", []).
  split; [exact Hlen|]. split; [exact Hpre|]. split; [reflexivity|].
  split; [reflexivity|]. split; [exact HA|]. split; [exact HB|].
  exact (processRequest_parse_error formBadToken ["3"] "x" [] (2, 3)
           Hlen Hpre eq_refl eq_refl (or_intror (conj HA HB))).
Defined.

Lemma processRequest_formBadToken :
  processRequest formBadToken
  = Done (((2, 3), (3, 0)), "x is an invalid input", false).
Proof. by vm_compute. Qed.

Lemma processRequest_messages_witness :
  processRequest formBadToken
  = Done (((2, 3), (3, 0)), "x is an invalid input", false)
  /\ ("x is an invalid input" = "2 numbers needed, 0 received"
      \/ "x is an invalid input" = "2 numbers needed, only 1 received"
      \/ exists matName tokens stringValue,
           (matName = "matASize" \/ matName = "matBSize")
           /\ fieldTokens formBadToken matName tokens
           /\ stringValue ∈ tokens
           /\ strconv.Atoi stringValue = None
           /\ "x is an invalid input"
              = stringValue +:+ " is an invalid input").
Proof.
  split; [exact processRequest_formBadToken|].
  exact (processRequest_messages formBadToken _ _ false
           processRequest_formBadToken).
Defined.

Lemma MatrixHandler_reports_validation_error_witness :
  ParseFormErr formBadToken = None
  /\ processRequest formBadToken
     = Done (((2, 3), (3, 0)), "x is an invalid input", false)
  /\ MatrixHandler formBadToken (worldZ sched22)
     = Done [EvWrite pageTop; EvWrite form;
             EvWrite (anError "x is an invalid input"); EvWrite pageBottom]
  /\ existsb computes
       ([EvWrite pageTop; EvWrite form;
         EvWrite (anError "x is an invalid input"); EvWrite pageBottom]
        : list (event Z)) = false.
Proof.
  split; [reflexivity|]. split; [exact processRequest_formBadToken|].
  exact (MatrixHandler_reports_validation_error formBadToken
           (worldZ sched22) _ _ eq_refl
           (or_introl processRequest_formBadToken)).
Defined.

Lemma MatrixHandler_form21 :
  MatrixHandler form21 (worldZ sched22)
  = Done [EvWrite pageTop; EvWrite form; EvCreateMat (2, 1);
          EvCreateMat (1, 2); EvMakeChan 4; EvSpawn 0 0; EvSpawn 0 1;
          EvSpawn 1 0; EvSpawn 1 1; EvSend 0 0; EvSend 0 1; EvSend 1 1;
          EvSend 1 0; EvRecv 0; EvRecv 0; EvRecv 300000000;
          EvRecv 200000000; EvWrite (formatResult 500000000 7);
          EvWrite pageBottom].
Proof. by vm_compute. Qed.


Lemma MatrixHandler_computes_only_after_validation_witness :
  (exists tr,
      MatrixHandler form21 (worldZ sched22) = Done tr
      /\ EvMakeChan 4 ∈ tr)
  /\ computes (EvMakeChan (F:=Z) 4) = true
  /\ ParseFormErr form21 = None
  /\ exists matSizes,
      processRequest form21 = Done (matSizes, "", true)
      /\ snd (fst matSizes) = fst (snd matSizes).
Proof.
  assert (EvMakeChan (F:=Z) 4
          ∈ [EvWrite pageTop; EvWrite form; EvCreateMat (2, 1);
             EvCreateMat (1, 2); EvMakeChan 4; EvSpawn 0 0; EvSpawn 0 1;
             EvSpawn 1 0; EvSpawn 1 1; EvSend 0 0; EvSend 0 1; EvSend 1 1;
             EvSend 1 0; EvRecv 0; EvRecv 0; EvRecv 300000000;
             EvRecv 200000000; EvWrite (formatResult 500000000 7);
             EvWrite pageBottom]) as Hin
    by (do 4 apply list_elem_of_further; apply list_elem_of_here).
  split; [eexists; split; [exact MatrixHandler_form21|exact Hin]|].
  split; [reflexivity|].
  exact (MatrixHandler_computes_only_after_validation form21
           (worldZ sched22) _ _ MatrixHandler_form21 Hin eq_refl).
Defined.





Lemma wikiHome_inStep : wiki.inStep ["home"] wikiHome.
Proof.
  split; [done|]. split; [done|]. intros t b. simpl.
  rewrite list_elem_of_singleton. split.
  - intros Hl. apply lookup_singleton_Some in Hl as [<- <-]. done.
  - intros [-> ->]. apply lookup_singleton_eq.
Qed.

Lemma saveHandler_keeps_titles_in_step_witness :
  wiki.inStep ["home"] wikiHome
  /\ wiki.availableTitlesRegExp wikiHome
     = "(" +:+ wiki.availableTitlesPattern wikiHome +:+ ")"
  /\ exists resp st',
      wiki.saveHandler acceptsAll "about" "us" None wikiHome = (resp, st')
      /\ wiki.inStep (wiki.registered ["home"] "about") st'
      /\ wiki.load "about" (wiki.files st')
         = Some {| wiki.Title := "about"; wiki.Body := "us" |}
      /\ (resp = wiki.Redirect ("/view/" +:+ "about") wiki.StatusFound
          /\ wiki.availableTitlesRegExp st'
             = "(" +:+ wiki.availableTitlesPattern st' +:+ ")"
          \/ resp = wiki.MustCompilePanic
                      ("(" +:+ wiki.availableTitlesPattern st' +:+ ")")
             /\ "about" ∉ ["home"]).
Proof.
  split; [exact wikiHome_inStep|]. split; [reflexivity|].
  exact (saveHandler_keeps_titles_in_step acceptsAll "about" "us" None
           wikiHome ["home"] wikiHome_inStep eq_refl).
Defined.

Lemma saveHandler_leaves_other_pages_witness :
  wiki.allAlnum "about" = true /\ wiki.allAlnum "home" = true
  /\ "about" <> "home"
  /\ wiki.load "home"
       (wiki.files
          (snd (wiki.saveHandler acceptsAll "about" "us" None wikiHome)))
     = wiki.load "home" (wiki.files wikiHome).
Proof.
  assert ("about" <> "home") as Hne by discriminate.
  split; [reflexivity|]. split; [reflexivity|]. split; [exact Hne|].
  exact (saveHandler_leaves_other_pages acceptsAll "about" "us" "home"
           wikiHome eq_refl eq_refl Hne).
Defined.

Lemma saveHandler_about :
  wiki.saveHandler acceptsAll "about" "us" None wikiHome
  = (wiki.Redirect "/view/about" 302,
     {| wiki.files :=
          <[wiki.Join wiki.packageDir "data" "about.txt" := "us"]>
            {[ homePath := "welcome" ]};
        wiki.availableTitlesPattern := "home|about";
        wiki.availableTitlesRegExp := "(home|about)";
        wiki.availableWikiTitles := <["about" := true]> {[ "home" := true ]}
     |}).
Proof. reflexivity. Qed.

Lemma view_after_save_shows_the_body_witness :
  "about" <> "" /\ wiki.allAlnum "about" = true
  /\ exists st',
      wiki.saveHandler acceptsAll "about" "us" None wikiHome
      = (wiki.Redirect "/view/about" 302, st')
      /\ "/view/about" = "/view/" +:+ "about" /\ 302%nat = wiki.StatusFound
      /\ wiki.makeHandler (fun t => wiki.viewHandler t st') "/view/about"
         = Done (inr (wiki.RenderView "view.html" "about" "us"
                        (wiki.availableTitlesRegExp st'))).
Proof.
  assert ("about" <> "") as Hne by discriminate.
  split; [exact Hne|]. split; [reflexivity|].
  eexists. split; [exact saveHandler_about|].
  exact (view_after_save_shows_the_body acceptsAll "about" "us" wikiHome
           _ _ _ Hne eq_refl saveHandler_about).
Defined.

Lemma view_of_a_missing_page_leads_to_its_edit_form_witness :
  "about" <> "" /\ wiki.allAlnum "about" = true
  /\ wiki.load "about" (wiki.files wikiHome) = None
  /\ wiki.viewHandler "about" wikiHome
     = wiki.Redirect ("/edit/" +:+ "about") wiki.StatusFound
  /\ wiki.makeHandler (fun t => wiki.editHandler t wikiHome)
       ("/edit/" +:+ "about")
     = Done (inr (wiki.RenderPage "edit.html"
                    {| wiki.Title := "about"; wiki.Body := "" |})).
Proof.
  assert ("about" <> "") as Hne by discriminate.
  assert (wiki.load "about" (wiki.files wikiHome) = None) as Hload
    by (by vm_compute).
  split; [exact Hne|]. split; [reflexivity|]. split; [exact Hload|].
  exact (view_of_a_missing_page_leads_to_its_edit_form "about" wikiHome
           Hne eq_refl Hload).
Defined.
